(** * Lexicon: the Git zone-file provider and the DigitalOcean provider

    A shallow embedding of [lexicon/providers/git.py] and
    [lexicon/providers/digitalocean.py], together with the parts of the
    Python standard library ([str] methods, [posixpath]) and of GitPython
    that these two modules call.

    Python [str] values are modelled as [string], the UTF-8 encoding of the
    text (what the providers look for in a text, ["/"], ["."] and
    ["{domain}"], is ASCII, and is found in the encoding where it is in the
    text),
    provider options and the files of a working copy as [gmap string _],
    exceptions as an explicit [outcome] type, and the effects on the
    outside world (temporary directories, clones, pushes, HTTP requests,
    log lines) as a trace of events carried in the state. *)

From stdpp Require Import gmap strings list.
From Stdlib Require Import ZArith Ascii String.

Local Open Scope string_scope.
Local Open Scope list_scope.

(** ** Exceptions *)

Inductive exn : Type :=
  | ValueError
  | IndexError
  | AuthenticationError
  | GitCommandError
  | JSONDecodeError
  | AttributeError
  | TypeError
  | HTTPError.

Inductive outcome (A : Type) : Type :=
  | Ret (a : A)
  | Raise (e : exn).
Arguments Ret {A} a.
Arguments Raise {A} e.

Global Instance exn_eq_dec : EqDecision exn.
Proof. solve_decision. Defined.

(** ** Python [str] methods used by the providers *)

Module PyStr.

(** [s.startswith(p)] *)
Fixpoint startswith (s p : string) : bool :=
  match p, s with
  | "", _ => true
  | String _ _, "" => false
  | String a p', String b s' =>
      if Ascii.eqb a b then startswith s' p' else false
  end.

(** [s.endswith(p)]: some suffix of [s] is [p]. *)
Fixpoint endswith (s p : string) : bool :=
  String.eqb s p ||
  match s with
  | "" => false
  | String _ s' => endswith s' p
  end.

(** [sub in s] *)
Fixpoint contains (sub s : string) : bool :=
  startswith s sub ||
  match s with
  | "" => false
  | String _ s' => contains sub s'
  end.

(** [c in chars] for a character [c]. *)
Fixpoint mem (c : ascii) (chars : string) : bool :=
  match chars with
  | "" => false
  | String a chars' => Ascii.eqb c a || mem c chars'
  end.

(** [s.replace(old, new)] for a non-empty [old]: the occurrences are
    replaced from left to right and do not overlap.  [skip] counts the
    characters of a matched occurrence that are still to be dropped. *)
Fixpoint replace_go (old new : string) (skip : nat) (s : string) : string :=
  match s with
  | "" => ""
  | String c s' =>
      match skip with
      | S k => replace_go old new k s'
      | O =>
          if startswith s old
          then new +:+ replace_go old new (String.length old - 1) s'
          else String c (replace_go old new 0 s')
      end
  end.

Definition replace (s old new : string) : string := replace_go old new 0 s.

(** [s.split(sep)] for a one-character separator. *)
Fixpoint split (s : string) (sep : ascii) : list string :=
  match s with
  | "" => [""]
  | String c s' =>
      if Ascii.eqb c sep then "" :: split s' sep
      else match split s' sep with
           | h :: t => String c h :: t
           | [] => [String c ""]
           end
  end.

(** [sep.join(l)] *)
Fixpoint join (sep : string) (l : list string) : string :=
  match l with
  | [] => ""
  | [x] => x
  | x :: l' => x +:+ sep +:+ join sep l'
  end.

(** [s.lstrip(chars)] *)
Fixpoint lstrip (s chars : string) : string :=
  match s with
  | "" => ""
  | String c s' => if mem c chars then lstrip s' chars else s
  end.

(** [s.rstrip(chars)] *)
Fixpoint rstrip (s chars : string) : string :=
  match s with
  | "" => ""
  | String c s' =>
      match rstrip s' chars with
      | "" => if mem c chars then "" else String c ""
      | r => String c r
      end
  end.

(** [s * n] *)
Fixpoint times (s : string) (n : nat) : string :=
  match n with
  | O => ""
  | S k => s +:+ times s k
  end.

End PyStr.

(** ** [posixpath]: [join], [normpath], [abspath], [relpath] *)

Module posixpath.
Import PyStr.

Definition sep : string := "/".
Definition sep_char : ascii := "/"%char.
Definition curdir : string := ".".
Definition pardir : string := "..".

Definition isabs (s : string) : bool := startswith s sep.

(** One iteration of the loop of [join(a, *p)]. *)
Definition join_step (path b : string) : string :=
  if startswith b sep then b
  else if String.eqb path "" || endswith path sep then path +:+ b
  else path +:+ sep +:+ b.

Definition join (a : string) (p : list string) : string :=
  foldl join_step a p.

(** [initial_slashes] of [normpath]: POSIX keeps exactly two leading
    slashes and treats three or more as one. *)
Definition initial_slashes (path : string) : nat :=
  if startswith path sep then
    if startswith path (times sep 2) && negb (startswith path (times sep 3))
    then 2 else 1
  else 0.

(** One iteration of the loop over [comps] in [normpath]; [new_comps]
    grows at its end. *)
Definition normpath_step (slashes : nat) (new_comps : list string)
    (comp : string) : list string :=
  if bool_decide (comp = "" ∨ comp = curdir) then new_comps
  else if bool_decide (comp ≠ pardir)
          || (Nat.eqb slashes 0 && bool_decide (new_comps = []))
          || (bool_decide (new_comps ≠ [])
              && bool_decide (last new_comps = Some pardir))
  then new_comps ++ [comp]
  else removelast new_comps.

Definition normpath_comps (path : string) : list string :=
  foldl (normpath_step (initial_slashes path)) [] (split path sep_char).

Definition normpath (path : string) : string :=
  if String.eqb path "" then curdir
  else
    let slashes := initial_slashes path in
    let path' := PyStr.join sep (normpath_comps path) in
    let path' := if Nat.eqb slashes 0 then path'
                 else times sep slashes +:+ path' in
    if String.eqb path' "" then curdir else path'.

(** [abspath]; [cwd] is what [os.getcwd()] returns. *)
Definition abspath (cwd path : string) : string :=
  if negb (isabs path) then normpath (join cwd [path]) else normpath path.

(** [genericpath.commonprefix] of two lists of components. *)
Fixpoint commonprefix (l1 l2 : list string) : list string :=
  match l1, l2 with
  | x :: l1', y :: l2' =>
      if String.eqb x y then x :: commonprefix l1' l2' else []
  | _, _ => []
  end.

Definition relpath (cwd path start : string) : outcome string :=
  if String.eqb path "" then Raise ValueError
  else
    let start_tail := lstrip (abspath cwd start) sep in
    let path_tail := lstrip (abspath cwd path) sep in
    let start_list :=
      if String.eqb start_tail "" then [] else split start_tail sep_char in
    let path_list :=
      if String.eqb path_tail "" then [] else split path_tail sep_char in
    let i := List.length (commonprefix start_list path_list) in
    let rel_list :=
      replicate (List.length start_list - i) pardir ++ drop i path_list in
    match rel_list with
    | [] => Ret curdir
    | a :: p => Ret (join a p)
    end.

End posixpath.

(** ** A state and exception monad

    A method of a provider is a function from the state before the call
    to its outcome (a value or a raised exception) and the state after:
    what a method changed before it raised stays changed. *)

Definition M (S A : Type) : Type := S → outcome A * S.

Definition ret {S A} (a : A) : M S A := λ s, (Ret a, s).
Definition raise {S A} (e : exn) : M S A := λ s, (Raise e, s).
Definition bind {S A B} (m : M S A) (k : A → M S B) : M S B :=
  λ s, match m s with
       | (Ret a, s') => k a s'
       | (Raise e, s') => (Raise e, s')
       end.
Definition gets {S A} (f : S → A) : M S A := λ s, (Ret (f s), s).
Definition modify {S} (f : S → S) : M S unit := λ s, (Ret tt, f s).

(** The body of a [try]: its outcome is handed to the [except] clauses. *)
Definition try_ {S A} (m : M S A) : M S (outcome A) :=
  λ s, let '(o, s') := m s in (Ret o, s').

Notation "'let*' x ':=' m 'in' k" := (bind m (λ x, k))
  (at level 10, x name, m at level 100, k at level 200, only parsing).
Notation "m ';;' k" := (bind m (λ _, k))
  (at level 100, k at level 200, right associativity, only parsing).

Inductive LogLevel : Type := INFO | ERROR | DEBUG.

(** ** [lexicon/providers/git.py] *)

Module GitProvider.
Import PyStr.

(** *** The GitPython objects the provider touches *)

Record Actor : Type := mkActor {
  actor_name : option string;
  actor_email : option string
}.

Record Commit : Type := mkCommit {
  tree : gmap string string;
  message : string;
  author : Actor;
  committer : Actor
}.

(** A cloned repository: the files of the directory it was cloned into
    (the working copy, with the files of the git directory below
    [.git/]) and the staged entries, both keyed by their path relative to
    the root, and the history of the checked-out branch, newest commit
    first. *)
Record Repo : Type := mkRepo {
  working_tree_dir : string;
  worktree : gmap string string;
  index : gmap string string;
  commits : list Commit
}.

Record PushInfo : Type := mkPushInfo {
  flags : Z;
  summary : string
}.

(** [PushInfo.ERROR]: GitPython numbers its flags [1 << x for x in
    range(11)] and [ERROR] is the last of them. *)
Definition PushInfo_ERROR : Z := Z.shiftl 1 10.

(** [repo.head.is_valid()] *)
Definition head_is_valid (r : Repo) : bool :=
  match commits r with [] => false | _ :: _ => true end.

(** [repo.index.add('*')]: the glob matches every entry of the root whose
    name does not start with a dot, directories with all they hold; the
    files found are staged over the entries the index already has. *)
Definition matches_star (path : string) : bool := negb (startswith path ".").

Definition index_add_star (r : Repo) : Repo :=
  {| working_tree_dir := working_tree_dir r;
     worktree := worktree r;
     index := filter (λ kv, matches_star kv.1 = true) (worktree r) ∪ index r;
     commits := commits r |}.

(** [index.diff(commit)]: the paths whose staged entry differs from the
    entry of the commit's tree, with both entries. *)
Definition diff_entry (a b : option string) : option (option string * option string) :=
  if decide (a = b) then None else Some (a, b).

Definition index_diff (r : Repo) (c : Commit)
    : gmap string (option string * option string) :=
  merge diff_entry (index r) (tree c).

(** [index.commit(message, author=..., committer=...)]: a commit of the
    staged entries becomes the head. *)
Definition index_commit (r : Repo) (msg : string) (a c : Actor) : Repo :=
  {| working_tree_dir := working_tree_dir r;
     worktree := worktree r;
     index := index r;
     commits := mkCommit (index r) msg a c :: commits r |}.

(** What a file of the working copy holds, by its absolute path. *)
Fixpoint strip_prefix (p s : string) : option string :=
  match p, s with
  | "", _ => Some s
  | String a p', String b s' =>
      if Ascii.eqb a b then strip_prefix p' s' else None
  | String _ _, "" => None
  end.

Definition read_file (r : Repo) (path : string) : option string :=
  match strip_prefix (working_tree_dir r +:+ "/") path with
  | Some rel => worktree r !! rel
  | None => None
  end.

(** *** The outside world *)

(** What the provider did to the outside world, in order. *)
Inductive Event : Type :=
  | EvTemporaryDirectory (prefix name : string)
  | EvCall (method : string)
  | EvClone (from_url : option string) (to_path : string)
      (kwargs : gmap string string)
  | EvOpen (path : string) (mode : string)
  | EvPush (refspec : option string) (kwargs : gmap string string)
  | EvLog (level : LogLevel) (msg : string).

(** What the outside world answers during one call: the name of a
    temporary directory, should one be created; what
    [git.Repo.clone_from] does, which is to return with the history of
    the branch it checked out and the files of the git directory it
    created (keyed like the files of the working copy, under [.git/]),
    or to raise, [GitCommandError] when the git command fails and
    whatever else it may raise; the list [Remote.push] returns. *)
Record Env : Type := mkEnv {
  mkdtemp : string;
  clone_from : option string → string → gmap string string →
               outcome (list Commit * gmap string string);
  push_reply : list PushInfo
}.

(** *** The provider *)

Record Provider : Type := mkProvider {
  options : gmap string string;
  domain : string;
  temp_dir : option string;
  repo : option Repo;
  filename : option string;
  domain_id : option string;
  trace : list Event
}.

Definition set_temp_dir (v : option string) (self : Provider) : Provider :=
  mkProvider (options self) (domain self) v (repo self) (filename self)
    (domain_id self) (trace self).
Definition set_repo (v : option Repo) (self : Provider) : Provider :=
  mkProvider (options self) (domain self) (temp_dir self) v (filename self)
    (domain_id self) (trace self).
Definition set_filename (v : option string) (self : Provider) : Provider :=
  mkProvider (options self) (domain self) (temp_dir self) (repo self) v
    (domain_id self) (trace self).
Definition set_domain_id (v : option string) (self : Provider) : Provider :=
  mkProvider (options self) (domain self) (temp_dir self) (repo self)
    (filename self) v (trace self).
Definition add_event (e : Event) (self : Provider) : Provider :=
  mkProvider (options self) (domain self) (temp_dir self) (repo self)
    (filename self) (domain_id self) (trace self ++ [e]).

Definition emit (e : Event) : M Provider unit := modify (add_event e).
Definition log (level : LogLevel) (msg : string) : M Provider unit :=
  emit (EvLog level msg).

Definition _get_provider_option (name : string) : M Provider (option string) :=
  gets (λ self, options self !! name).

(** A provider as the initialisers of the base classes leave it: the
    configuration and the domain are kept, and nothing else is assigned
    yet. *)
Definition BaseProvider_init (config : gmap string string) (dom : string)
    : Provider :=
  {| options := config; domain := dom; temp_dir := None; repo := None;
     filename := None; domain_id := None; trace := [] |}.

(** [Provider.__init__], after [super().__init__(config)] returned
    [base]. *)
Definition __init__ (base : Provider) : Provider :=
  set_repo None (set_temp_dir None base).

(** [_clone]: [git.Repo.clone_from]; the index of a fresh clone is the
    tree of the head commit, and its directory holds that tree checked
    out and the git directory. *)
Definition cloned (to_path : string) (history : list Commit)
    (git_dir : gmap string string) : Repo :=
  let files := match history with [] => ∅ | c :: _ => tree c end in
  {| working_tree_dir := to_path; worktree := files ∪ git_dir;
     index := files; commits := history |}.

Definition _clone (env : Env) (from_url : option string) (to_path : string)
    (kwargs : gmap string string) : M Provider Repo :=
  emit (EvClone from_url to_path kwargs);;
  match clone_from env from_url to_path kwargs with
  | Ret (history, git_dir) => ret (cloned to_path history git_dir)
  | Raise e => raise e
  end.

(** [_push]: [kwargs] is accepted and not used; [Remote.push] is called
    without arguments. *)
Definition _push (env : Env) (kwargs : gmap string string) : M Provider bool :=
  emit (EvPush None ∅);;
  match push_reply env with
  | [] => raise IndexError
  | push_info :: _ =>
      if Z.eqb (Z.land (flags push_info) PushInfo_ERROR) PushInfo_ERROR
      then log ERROR "Error pushing, got";; ret false
      else log INFO "Pushed with";; ret true
  end.

Section Methods.
(** [os.getcwd()], which [os.path.relpath] may consult. *)
Variable cwd : string.

(** The methods inherited from the zone-file provider
    ([lexicon/providers/localzone.py]): each reports success as a
    boolean. *)
Variable localzone_create_record :
  string → string → string → Provider → bool * Provider.
Variable localzone_update_record :
  option string → string → string → string → Provider → bool * Provider.
Variable localzone_delete_record :
  option string → option string → option string → option string →
  Provider → bool * Provider.

Definition _zone_filename (self : Provider) : outcome string :=
  let filename := options self !! "git_path" in
  let filename := match filename with None => "" | Some f => f end in
  let filename :=
    if contains "{domain}" filename
    then replace filename "{domain}" (domain self)
    else posixpath.join filename [domain self] in
  posixpath.relpath cwd (posixpath.join "/" [filename]) "/".

Definition _authenticate (env : Env) : M Provider unit :=
  let* url := _get_provider_option "git_repo" in
  let* td := gets temp_dir in
  match td with
  | None =>
      emit (EvTemporaryDirectory "dns-lexicon-git-" (mkdtemp env));;
      modify (set_temp_dir (Some (mkdtemp env)));;
      emit (EvCall "_zone_filename");;
      let* zone := (λ self, (_zone_filename self, self)) in
      modify (set_filename (Some (posixpath.join (mkdtemp env) [zone])))
  | Some _ => ret tt
  end;;
  let* r := gets repo in
  match r with
  | None =>
      let kwargs : gmap string string := ∅ in
      let* branch := _get_provider_option "git_branch" in
      let kwargs :=
        match branch with
        | Some b => <["branch" := b]> kwargs
        | None => kwargs
        end in
      let* td := gets temp_dir in
      match td with
      | None => raise AttributeError
      | Some name =>
          let* cloned := try_ (_clone env url name kwargs) in
          match cloned with
          | Raise GitCommandError =>
              log ERROR "Could not clone";;
              raise AuthenticationError
          | Raise e => raise e
          | Ret r' =>
              modify (set_repo (Some r'));;
              log INFO "Cloned"
          end
      end
  | Some _ => ret tt
  end;;
  let* fname := gets filename in
  match fname with
  | None => raise TypeError
  | Some path =>
      emit (EvOpen path "rt");;
      let* r := gets repo in
      match r ≫= (λ r, read_file r path) with
      | None =>
          log ERROR "not present in";;
          raise AuthenticationError
      | Some _ => ret tt
      end
  end;;
  let* d := gets domain in
  modify (set_domain_id (Some d)).

Definition _commit (env : Env) : M Provider bool :=
  let* r := gets repo in
  match r with
  | None => raise AttributeError
  | Some r =>
      let r := index_add_star r in
      modify (set_repo (Some r));;
      if match commits r with
         | [] => false
         | head_commit :: _ => bool_decide (index_diff r head_commit = ∅)
         end
      then
        log INFO "Nothing to commit!";;
        ret true
      else
        let* name := _get_provider_option "git_name" in
        let* email := _get_provider_option "git_email" in
        let author := mkActor name email in
        let* message := _get_provider_option "git_message" in
        let message :=
          match message with
          | None => "Update {domain} (automated commit)"
          | Some m => m
          end in
        let* d := gets domain in
        let message :=
          if contains "{domain}" message
          then replace message "{domain}" d
          else message in
        modify (set_repo (Some (index_commit r message author author)));;
        log INFO "Committed";;
        let kwargs : gmap string string := ∅ in
        let* branch := _get_provider_option "git_push_branch" in
        let kwargs :=
          match branch with
          | Some b => <["branch" := b]> kwargs
          | None => kwargs
          end in
        _push env kwargs
  end.

Definition _create_record (env : Env) (rtype name content : string)
    : M Provider bool :=
  let* result := (λ self,
    let '(b, self') := localzone_create_record rtype name content self in
    (Ret b, self')) in
  if result : bool then _commit env else ret result.

Definition _update_record (env : Env) (identifier : option string)
    (rtype name content : string) : M Provider bool :=
  let* result := (λ self,
    let '(b, self') :=
      localzone_update_record identifier rtype name content self in
    (Ret b, self')) in
  if result : bool then _commit env else ret result.

Definition _delete_record (env : Env)
    (identifier rtype name content : option string) : M Provider bool :=
  let* result := (λ self,
    let '(b, self') :=
      localzone_delete_record identifier rtype name content self in
    (Ret b, self')) in
  if result : bool then _commit env else ret result.

End Methods.

End GitProvider.

(** ** [lexicon/providers/digitalocean.py] *)

Module DigitalOcean.
Import PyStr.

(** An entry of [domain_records] in a page of the API. *)
Record ApiRecord : Type := mkApiRecord {
  api_id : Z;
  api_type : string;
  api_name : string;
  api_data : string
}.

(** What the API answers to a [GET] of the record collection: a failure
    status, on which [raise_for_status] raises; a success status with a
    body that is not JSON, on which [r.json()] raises; a page without a
    link to a next page; or a page with such a link and what the API
    answers there. *)
Inductive Response : Type :=
  | Failure
  | NotJson
  | LastPage (domain_records : list ApiRecord)
  | LinkedPage (domain_records : list ApiRecord) (next : string)
      (reply : Response).

(** A record as [list_records] returns it. *)
Record Record_ : Type := mkRecord {
  rec_type : string;
  rec_name : string;
  rec_ttl : string;
  rec_content : string;
  rec_id : Z
}.

(** The body of a creation request. *)
Record NewRecord : Type := mkNewRecord {
  new_type : string;
  new_name : string;
  new_data : string
}.

Inductive Request : Type :=
  | GET (url : string)
  | POST (url : string) (data : NewRecord).

(** What the API answers to a [POST]: a failure status, a success status
    with a body that is not JSON, or a success status with a JSON body. *)
Inductive Answer : Type :=
  | Refused
  | Unparsable
  | Parsed.

(** The API during one call: its answer to the first [GET], and its
    answer to a [POST]. *)
Record Env : Type := mkEnv {
  get_reply : Response;
  post_reply : Answer
}.

Record Provider : Type := mkProvider {
  domain : string;
  domain_id : option string;
  api_endpoint : string;
  requests : list Request
}.

Definition sent (r : Request) (self : Provider) : Provider :=
  mkProvider (domain self) (domain_id self) (api_endpoint self)
    (requests self ++ [r]).

(** ['/domains/{0}/records'.format(self.domain_id)]: [None] is formatted
    as its name. *)
Definition records_url (self : Provider) : string :=
  "/domains/" +:+ default "None" (domain_id self) +:+ "/records".

(** The truth value of an optional [str] argument. *)
Definition truthy (o : option string) : bool :=
  match o with
  | None => false
  | Some s => negb (String.eqb s "")
  end.

(** [_post]: [_request] raises on a failure status ([raise_for_status]),
    and on a success status it returns [r.json()], which raises on a body
    that is not JSON. *)
Definition _post (env : Env) (url : string) (data : NewRecord)
    : M Provider unit :=
  modify (sent (POST url data));;
  match post_reply env with
  | Refused => raise HTTPError
  | Unparsable => raise JSONDecodeError
  | Parsed => ret tt
  end.

Section Methods.
(** [str.lower]: the lower-casing of Python, over every cased letter of
    Unicode; its table is not part of the provider. *)
Variable lower : string → string.

(** [_full_name] and [_relative_name] of the base provider. *)
Variable _full_name : Provider → string → string.
Variable _relative_name : Provider → string → string.

Definition processed_record (self : Provider) (record : ApiRecord) : Record_ :=
  {| rec_type := api_type record;
     rec_name := api_name record +:+ "." +:+ default "None" (domain_id self);
     rec_ttl := "";
     rec_content := api_data record;
     rec_id := api_id record |}.

(** The [while next is not None] loop of [list_records]: one [GET] per
    page, following the link of each page to the next. *)
Fixpoint fetch_pages (reply : Response) (next : string)
    (records : list Record_) : M Provider (list Record_) :=
  modify (sent (GET next));;
  match reply with
  | Failure => raise HTTPError
  | NotJson => raise JSONDecodeError
  | LastPage domain_records =>
      let* self := gets id in
      ret (records ++ map (processed_record self) domain_records)
  | LinkedPage domain_records next' reply' =>
      let* self := gets id in
      fetch_pages reply' next'
        (records ++ map (processed_record self) domain_records)
  end.

Definition list_records (env : Env) (type name content : option string)
    : M Provider (list Record_) :=
  let* url := gets records_url in
  let* records := fetch_pages (get_reply env) url [] in
  let* self := gets id in
  let records :=
    if truthy type
    then filter (λ record, Some (rec_type record) = type) records
    else records in
  let records :=
    if truthy name
    then filter (λ record,
           Some (rec_name record) = _full_name self <$> name) records
    else records in
  let records :=
    if truthy content
    then filter (λ record,
           Some (lower (rec_content record)) = lower <$> content) records
    else records in
  ret records.

Definition create_record (env : Env) (type name content : string)
    : M Provider bool :=
  let* records := list_records env (Some type) (Some name) (Some content) in
  (if Nat.eqb (List.length records) 0 then
     let* self := gets id in
     let record := mkNewRecord type (_relative_name self name) content in
     let record :=
       if String.eqb type "CNAME"
       then mkNewRecord (new_type record) (new_name record)
              (rstrip (new_data record) "." +:+ ".")
       else record in
     let* url := gets records_url in
     _post env url record
   else ret tt);;
  ret true.

End Methods.

End DigitalOcean.

(** ** Vocabulary of the statements *)

(** The segments of a path: what lies between its separators. *)
Definition segments (path : string) : list string :=
  PyStr.split path posixpath.sep_char.

(** A proper segment: not empty, not [.] or [..], without a separator. *)
Definition Segment (c : string) : Prop :=
  c ≠ "" ∧ c ≠ "." ∧ c ≠ ".." ∧ PyStr.mem posixpath.sep_char c = false.

(** What ["/".join(a, *p)] appends to [a]. *)
Fixpoint tail_join (p : list string) : string :=
  match p with
  | [] => ""
  | b :: p' => "/" +:+ b +:+ tail_join p'
  end.

(** [sub] occurs in [s]. *)
Definition occurs (sub s : string) : Prop :=
  ∃ before after, s = before +:+ sub +:+ after.

(** The pieces of a text, with [sep] between each two of them. *)
Fixpoint joined_by (sep : string) (pieces : list string) : string :=
  match pieces with
  | [] => ""
  | [piece] => piece
  | piece :: rest => piece +:+ sep +:+ joined_by sep rest
  end.

(** The path resolver in the words of the specification: one of three
    branches chooses a path, which is then normalised against a synthetic
    root and expressed relative to it. *)
Module PathResolver.

Definition choose (template : option string) (domain : string) : string :=
  match template with
  | None => domain
  | Some "" => domain
  | Some t =>
      if PyStr.contains "{domain}" t
      then PyStr.replace t "{domain}" domain
      else posixpath.join t [domain]
  end.

(** Resolving [.] and [..] below the root: [..] at the root stays at the
    root. *)
Definition collapse_step (stack : list string) (comp : string) : list string :=
  if bool_decide (comp = "" ∨ comp = ".") then stack
  else if bool_decide (comp = "..") then removelast stack
  else stack ++ [comp].

Definition collapse (path : string) : list string :=
  foldl collapse_step [] (segments path).

Definition render (comps : list string) : string :=
  match comps with
  | [] => "."
  | _ :: _ => PyStr.join "/" comps
  end.

Definition resolve (template : option string) (domain : string) : string :=
  render (collapse (choose template domain)).

End PathResolver.

(** The Git provider's sessions, as the statements speak of them. *)
Module Session.
Import GitProvider.

(** The history of the session's clone; no clone, no history. *)
Definition history (self : Provider) : list Commit :=
  match repo self with
  | Some r => commits r
  | None => []
  end.

Definition is_temporary_directory (e : Event) : bool :=
  match e with EvTemporaryDirectory _ _ => true | _ => false end.
Definition is_clone (e : Event) : bool :=
  match e with EvClone _ _ _ => true | _ => false end.
Definition is_push (e : Event) : bool :=
  match e with EvPush _ _ => true | _ => false end.
Definition is_zone_filename_call (e : Event) : bool :=
  match e with EvCall "_zone_filename" => true | _ => false end.

Definition count (p : Event → bool) (self : Provider) : nat :=
  List.length (List.filter p (trace self)).

(** The staged index has nothing the head commit lacks: the repository
    has a commit and [index.diff] against it is empty. *)
Definition nothing_to_commit (r : Repo) : Prop :=
  match commits r with
  | [] => False
  | head_commit :: _ => index_diff r head_commit = ∅
  end.

Global Instance nothing_to_commit_dec (r : Repo) : Decision (nothing_to_commit r).
Proof. unfold nothing_to_commit. destruct (commits r); apply _. Defined.

(** The commit message [_commit] builds. *)
Definition commit_message (self : Provider) : string :=
  let message := default "Update {domain} (automated commit)"
                   (options self !! "git_message") in
  if PyStr.contains "{domain}" message
  then PyStr.replace message "{domain}" (domain self) else message.

Definition commit_author (self : Provider) : Actor :=
  mkActor (options self !! "git_name") (options self !! "git_email").

Definition push_kwargs (self : Provider) : gmap string string :=
  match options self !! "git_push_branch" with
  | Some b => <["branch" := b]> ∅
  | None => ∅
  end.

(** The three mutating methods have one shape: the inherited method,
    then [_commit] when it reported success. *)
Definition then_commit (env : Env) (mutation : Provider → bool * Provider)
    : M Provider bool :=
  let* result := (λ self, let '(b, self') := mutation self in (Ret b, self')) in
  if result : bool then _commit env else ret result.

(** What a clone made in this call is given: the directory of the
    session and the branch option. *)
Definition session_dir (env : Env) (self : Provider) : string :=
  default (mkdtemp env) (temp_dir self).

Definition clone_kwargs (self : Provider) : gmap string string :=
  match options self !! "git_branch" with
  | Some b => <["branch" := b]> ∅
  | None => ∅
  end.

Definition clone_reply (env : Env) (self : Provider)
    : outcome (list Commit * gmap string string) :=
  clone_from env (options self !! "git_repo") (session_dir env self)
    (clone_kwargs self).

(** The repository of the session after a call: the one it had, or the
    one the call cloned. *)
Definition repo_after (env : Env) (self : Provider) : option Repo :=
  match repo self with
  | Some r => Some r
  | None =>
      match clone_reply env self with
      | Ret (history, git_dir) =>
          Some (cloned (session_dir env self) history git_dir)
      | Raise _ => None
      end
  end.

(** Every file the call opened was opened for reading. *)
Definition opened_read_only (e : Event) : Prop :=
  match e with
  | EvOpen _ mode => mode = "rt"
  | _ => True
  end.

(** The zone-file path a session stores when it creates its directory. *)
Definition zone_path (env : Env) (self : Provider) : string :=
  posixpath.join (mkdtemp env)
    [PathResolver.resolve (options self !! "git_path") (domain self)].


(** The name of a directory as [TemporaryDirectory] gives it: not empty
    and without a separator at its end. *)
Definition plain_dir (d : string) : Prop :=
  d ≠ "" ∧ ∀ d', d ≠ d' +:+ "/".

(** The sessions a provider can be in.  Before its first
    [_authenticate] it has neither directory nor clone; from then on it
    has a directory, its zone-file path is the resolved path in that
    directory, and its clone, if it has one, is in that directory. *)
Definition well_formed (self : Provider) : Prop :=
  match temp_dir self with
  | None => repo self = None
  | Some d =>
      plain_dir d
      ∧ filename self
        = Some (d +:+ "/" +:+
                PathResolver.resolve (options self !! "git_path") (domain self))
      ∧ ∀ r, repo self = Some r → working_tree_dir r = d
  end.

(** A sequence of [_authenticate] calls on one instance, each with what
    the outside world answers during it. *)
Definition authenticate_all (cwd : string) (envs : list Env)
    (self : Provider) : Provider :=
  foldl (λ s env, (_authenticate cwd env s).2) self envs.

End Session.

(** A small repository and its surroundings, for the statements below that
    speak of one session. *)
Module Examples.
Import GitProvider Session.

Definition john : Actor := mkActor (Some "John Doe") (Some "john@example.com").

Definition zone_v1 : gmap string string :=
  {[ "example.com" := "@ 3600 IN A 192.0.2.1" ]}.

Definition first_commit : Commit := mkCommit zone_v1 "New domain" john john.

(** Flags of a fast-forward push, and of a rejected one. *)
Definition fast_forward : PushInfo := mkPushInfo 256 "abc..def".
Definition rejected : PushInfo := mkPushInfo 1032 "[rejected] (fetch first)".

(** Files of the git directory of a clone. *)
Definition git_files : gmap string string :=
  {[ ".git/HEAD" := "ref: refs/heads/main";
     ".git/config" := "[core]" ]}.

(** An upstream that holds the zone of [example.com]; one that cannot be
    reached; one that holds another zone only; and one whose clone, asked
    without a URL, raises something else than a git command error. *)
Definition upstream (reply : list PushInfo) : Env :=
  mkEnv "/tmp/dns-lexicon-git-k3"
    (λ _ _ _, Ret ([first_commit], git_files)) reply.

Definition unreachable : Env :=
  mkEnv "/tmp/dns-lexicon-git-k3" (λ _ _ _, Raise GitCommandError) [].



Definition config : gmap string string :=
  {[ "git_repo" := "https://git.example.org/zones.git";
     "git_branch" := "main";
     "git_push_branch" := "release";
     "git_name" := "John Doe";
     "git_email" := "john@example.com" ]}.

Definition fresh : Provider := __init__ (BaseProvider_init config "example.com").


(** The session after a successful [_authenticate]. *)
Definition ready : Provider := (_authenticate "/" (upstream [fast_forward]) fresh).2.

(** A zone store that writes the content as the zone file, and one that
    refuses every mutation. *)
Definition write_zone (content : string) (self : Provider) : Provider :=
  match repo self with
  | Some r =>
      set_repo (Some (mkRepo (working_tree_dir r)
                        (<["example.com" := content]> (worktree r))
                        (index r) (commits r))) self
  | None => self
  end.

Definition accept_create (rtype name content : string) (self : Provider)
    : bool * Provider := (true, write_zone content self).
Definition refuse_create (rtype name content : string) (self : Provider)
    : bool * Provider := (false, self).
Definition refuse_update (identifier : option string)
    (rtype name content : string) (self : Provider) : bool * Provider :=
  (false, self).
Definition refuse_delete (identifier rtype name content : option string)
    (self : Provider) : bool * Provider := (false, self).

(** The repository of [ready], and the session after a record was
    written and not yet committed. *)
Definition ready_repo : Repo :=
  cloned "/tmp/dns-lexicon-git-k3" [first_commit] git_files.

Definition edited_repo : Repo :=
  mkRepo "/tmp/dns-lexicon-git-k3"
    (<["example.com" := "@ 3600 IN A 192.0.2.7"]> (zone_v1 ∪ git_files))
    zone_v1 [first_commit].

Definition edited : Provider := set_repo (Some edited_repo) ready.

End Examples.

(** The DigitalOcean API, as the statements speak of it. *)
Module Api.
Import DigitalOcean.

(** Every page of the collection is served. *)
Fixpoint responsive (reply : Response) : bool :=
  match reply with
  | Failure => false
  | NotJson => false
  | LastPage _ => true
  | LinkedPage _ _ reply' => responsive reply'
  end.

(** What the first page that is not served makes the request raise. *)
Fixpoint page_error (reply : Response) : option exn :=
  match reply with
  | Failure => Some HTTPError
  | NotJson => Some JSONDecodeError
  | LastPage _ => None
  | LinkedPage _ _ reply' => page_error reply'
  end.

(** What [_post] gives for each answer of the API. *)
Definition posted (answer : Answer) : outcome bool :=
  match answer with
  | Refused => Raise HTTPError
  | Unparsable => Raise JSONDecodeError
  | Parsed => Ret true
  end.

Definition is_post (r : Request) : bool :=
  match r with POST _ _ => true | GET _ => false end.

(** The body [create_record] sends. *)
Definition new_record (_relative_name : Provider → string → string)
    (self : Provider) (type name content : string) : NewRecord :=
  mkNewRecord type (_relative_name self name)
    (if String.eqb type "CNAME"
     then PyStr.rstrip content "." +:+ "." else content).

(** A collection of two pages, an API that serves it, and a provider
    after [authenticate]. *)
Definition two_pages : Response :=
  LinkedPage [mkApiRecord 1 "A" "www" "192.0.2.1"]
    "https://api.digitalocean.com/v2/domains/example.com/records?page=2"
    (LastPage [mkApiRecord 2 "CNAME" "docs" "example.org."]).

Definition serving : Env := mkEnv two_pages Parsed.

(** [str.lower] on texts of ASCII letters, for the examples. *)
Definition ascii_lower_char (c : ascii) : ascii :=
  let n := nat_of_ascii c in
  if (65 <=? n)%nat && (n <=? 90)%nat then ascii_of_nat (n + 32) else c.

Fixpoint ascii_lower (s : string) : string :=
  match s with
  | "" => ""
  | String c s' => String (ascii_lower_char c) (ascii_lower s')
  end.

Definition authenticated : Provider :=
  mkProvider "example.com" (Some "example.com")
    "https://api.digitalocean.com/v2" [].

(** Names are given in full and sent as given. *)
Definition as_given (self : Provider) (name : string) : string := name.

End Api.

(** ** [lexicon/providers/digitalocean.py]: the requests and the other
    operations *)

From stdpp Require pretty.

Module DigitalOceanHttp.
Import PyStr DigitalOcean.

(** What [requests.request] is given: the action, the URL, the query
    parameters, the fields of the JSON body and the headers. *)
Record HttpRequest : Type := mkHttpRequest {
  http_action : string;
  http_url : string;
  http_params : gmap string string;
  http_data : gmap string string;
  http_headers : gmap string string
}.

(** What it answers: whether [raise_for_status] passes, and what
    [r.json()] makes of the body, [None] standing for a body that is not
    JSON, on which it raises. *)
Record HttpResponse : Type := mkHttpResponse {
  status_ok : bool;
  json : option string
}.

(** What [_request] returns: [''] or the parsed body. *)
Inductive Payload : Type :=
  | EmptyText
  | Json (text : string).

(** The provider with its token and with the requests it put on the
    wire, in order. *)
Record Client : Type := mkClient {
  provider : Provider;
  auth_token : option string;
  wire : list HttpRequest
}.

Definition set_provider (p : Provider) (c : Client) : Client :=
  mkClient p (auth_token c) (wire c).
Definition on_wire (r : HttpRequest) (c : Client) : Client :=
  mkClient (provider c) (auth_token c) (wire c ++ [r]).
Definition set_domain_id (v : option string) (c : Client) : Client :=
  set_provider
    (mkProvider (domain (provider c)) v (api_endpoint (provider c))
       (requests (provider c))) c.

(** A method of the provider that was embedded on [Provider] alone. *)
Definition on_provider {A} (m : M Provider A) : M Client A :=
  λ c, let '(o, p) := m (provider c) in (o, set_provider p c).

(** [Provider.__init__], after [super().__init__(config)] returned
    [base]. *)
Definition __init__ (base : Client) : Client :=
  set_provider
    (mkProvider (domain (provider base)) None
       "https://api.digitalocean.com/v2" (requests (provider base))) base.

(** [_request] *)
Definition _request (server : HttpRequest → HttpResponse)
    (action url : string) (data query_params : option (gmap string string))
    : M Client Payload :=
  let data := default ∅ data in
  let query_params := default ∅ query_params in
  let* token := gets auth_token in
  let default_headers : gmap string string :=
    {[ "Accept" := "application/json";
       "Content-Type" := "application/json";
       "Authorization" := "Bearer " +:+ default "None" token ]} in
  let* endpoint := gets (λ c, api_endpoint (provider c)) in
  let url := if negb (startswith url endpoint) then endpoint +:+ url else url in
  let request := mkHttpRequest action url query_params data default_headers in
  modify (on_wire request);;
  let r := server request in
  if status_ok r then
    if String.eqb action "DELETE" then ret EmptyText
    else match json r with
         | Some text => ret (Json text)
         | None => raise JSONDecodeError
         end
  else raise HTTPError.

(** [_get], [_put] and [_delete] of the base provider: [_request] with
    the action. *)
Definition _get (server : HttpRequest → HttpResponse) (url : string)
    : M Client Payload := _request server "GET" url None None.
Definition _put (server : HttpRequest → HttpResponse) (url : string)
    (data : gmap string string) : M Client Payload :=
  _request server "PUT" url (Some data) None.
Definition _delete (server : HttpRequest → HttpResponse) (url : string)
    : M Client Payload := _request server "DELETE" url None None.

(** An identifier as a caller may give it: [None], a [str] or an [int]
    (the [id] of a listed record is an [int]). *)
Inductive Identifier : Type :=
  | IdNone
  | IdStr (s : string)
  | IdInt (n : Z).

(** Its truth value, and how [str.format] prints it. *)
Definition id_truthy (i : Identifier) : bool :=
  match i with
  | IdNone => false
  | IdStr s => negb (String.eqb s "")
  | IdInt n => negb (Z.eqb n 0)
  end.

Definition format_id (i : Identifier) : string :=
  match i with
  | IdNone => "None"
  | IdStr s => s
  | IdInt n => pretty.pretty n
  end.

(** ['/domains/{0}/records/{1}'.format(self.domain_id, identifier)] *)
Definition record_url (self : Provider) (i : Identifier) : string :=
  "/domains/" +:+ default "None" (domain_id self) +:+ "/records/"
  +:+ format_id i.

Definition authenticate (server : HttpRequest → HttpResponse) : M Client unit :=
  let* d := gets (λ c, domain (provider c)) in
  _get server ("/domains/" +:+ d);;
  modify (set_domain_id (Some d)).

Section Methods.
Variable lower : string → string.
Variable _full_name : Provider → string → string.
Variable _relative_name : Provider → string → string.

Definition update_record (server : HttpRequest → HttpResponse)
    (identifier : Identifier) (type name content : option string)
    : M Client bool :=
  let data : gmap string string := ∅ in
  let data :=
    match type with
    | Some t => if truthy type then <["type" := t]> data else data
    | None => data
    end in
  let* self := gets provider in
  let data :=
    match name with
    | Some n =>
        if truthy name then <["name" := _relative_name self n]> data
        else data
    | None => data
    end in
  let data :=
    match content with
    | Some c => if truthy content then <["data" := c]> data else data
    | None => data
    end in
  _put server (record_url self identifier) data;;
  ret true.

(** The [for record_id in delete_record_id] loop. *)
Fixpoint delete_each (server : HttpRequest → HttpResponse)
    (delete_record_id : list Identifier) : M Client unit :=
  match delete_record_id with
  | [] => ret tt
  | record_id :: rest =>
      let* self := gets provider in
      _delete server (record_url self record_id);;
      delete_each server rest
  end.

Definition delete_record (env : Env) (server : HttpRequest → HttpResponse)
    (identifier : Identifier) (type name content : option string)
    : M Client bool :=
  let* delete_record_id :=
    if negb (id_truthy identifier) then
      let* records :=
        on_provider (list_records lower _full_name env type name content) in
      ret (map (λ record, IdInt (rec_id record)) records)
    else ret [identifier] in
  delete_each server delete_record_id;;
  ret true.

End Methods.

End DigitalOceanHttp.

(** The DigitalOcean provider's operations, as the statements speak of
    them. *)
Module Crud.
Import DigitalOcean DigitalOceanHttp.

(** The records of a served collection, page after page, and the links
    from each page to the next. *)
Fixpoint all_records (reply : Response) : list ApiRecord :=
  match reply with
  | Failure => []
  | NotJson => []
  | LastPage domain_records => domain_records
  | LinkedPage domain_records _ reply' => domain_records ++ all_records reply'
  end.

Fixpoint links (reply : Response) : list string :=
  match reply with
  | Failure => []
  | NotJson => []
  | LastPage _ => []
  | LinkedPage _ next reply' => next :: links reply'
  end.

(** The session after [list_records] fetched every page. *)
Definition listed (reply : Response) (self : Provider) : Provider :=
  mkProvider (domain self) (domain_id self) (api_endpoint self)
    (requests self ++ map GET (records_url self :: links reply)).

Definition served (reply : Response) (self : Provider) : list Record_ :=
  map (processed_record self) (all_records reply).

(** A listed record passes the filters that are given. *)
Definition passes (lower : string → string)
    (_full_name : Provider → string → string) (self : Provider)
    (type name content : option string) (record : Record_) : Prop :=
  (truthy type = true → Some (rec_type record) = type)
  ∧ (truthy name = true → Some (rec_name record) = _full_name self <$> name)
  ∧ (truthy content = true →
       Some (lower (rec_content record)) = lower <$> content).

Global Instance passes_dec (lower : string → string)
    (_full_name : Provider → string → string)
    (self : Provider) (type name content : option string) (record : Record_) :
  Decision (passes lower _full_name self type name content record).
Proof. unfold passes. apply _. Defined.

(** The URL and the headers [_request] uses. *)
Definition full_url (c : Client) (url : string) : string :=
  if negb (PyStr.startswith url (api_endpoint (provider c)))
  then api_endpoint (provider c) +:+ url else url.

Definition headers (c : Client) : gmap string string :=
  {[ "Accept" := "application/json";
     "Content-Type" := "application/json";
     "Authorization" := "Bearer " +:+ default "None" (auth_token c) ]}.

(** The request [_delete] puts on the wire for a record, and whether the
    server answers it with success. *)
Definition delete_request (c : Client) (i : Identifier) : HttpRequest :=
  mkHttpRequest "DELETE" (full_url c (record_url (provider c) i)) ∅ ∅
    (headers c).

Definition deletes (server : HttpRequest → HttpResponse) (c : Client)
    (i : Identifier) : Prop :=
  status_ok (server (delete_request c i)) = true.

(** The identifiers of listed records. *)
Definition ids_of (records : list Record_) : list Identifier :=
  map (λ record, IdInt (rec_id record)) records.

(** A server that answers every request with success, and one that
    refuses to delete the record 2. *)
Definition obliging (r : HttpRequest) : HttpResponse :=
  mkHttpResponse true (Some "{}").

Definition keeps_record_2 (r : HttpRequest) : HttpResponse :=
  mkHttpResponse
    (negb (String.eqb (http_action r) "DELETE"
           && PyStr.endswith (http_url r) "/records/2")) (Some "{}").

(** A server that answers with success and a page of HTML. *)
Definition behind_a_proxy (r : HttpRequest) : HttpResponse :=
  mkHttpResponse true None.

Definition client : Client :=
  mkClient Api.authenticated (Some "dop_v1_token") [].

Definition new_client : Client :=
  __init__ (mkClient (mkProvider "example.com" None "" []) (Some "dop_v1_token") []).

End Crud.

(** * Facts about the string and path functions *)

Section StringFacts.
Import PyStr.

Lemma str_app_cons (c : ascii) (s t : string) :
  String c s +:+ t = String c (s +:+ t).
Proof. reflexivity. Qed.

Lemma str_app_empty_l (s : string) : "" +:+ s = s.
Proof. reflexivity. Qed.

Lemma str_app_empty_r (s : string) : s +:+ "" = s.
Proof. induction s as [|a s IH]; [reflexivity|]. rewrite str_app_cons, IH. reflexivity. Qed.

Lemma str_app_assoc (s t u : string) : (s +:+ t) +:+ u = s +:+ t +:+ u.
Proof. induction s as [|a s IH]; [reflexivity|]. rewrite !str_app_cons, IH. reflexivity. Qed.

Lemma str_app_eq_empty (s t : string) : s +:+ t = "" → s = "" ∧ t = "".
Proof. destruct s; [intros H; split; [reflexivity | exact H] | discriminate]. Qed.

Lemma str_mem_cons (c a : ascii) (s : string) :
  mem c (String a s) = Ascii.eqb c a || mem c s.
Proof. reflexivity. Qed.

Lemma startswith_char (a c : ascii) (s : string) :
  startswith (String a s) (String c "") = Ascii.eqb c a.
Proof. simpl. destruct (Ascii.eqb c a), s; reflexivity. Qed.

Lemma str_mem_app (c : ascii) (s t : string) :
  mem c (s +:+ t) = mem c s || mem c t.
Proof.
  induction s as [|a s IH]; [reflexivity|].
  rewrite str_app_cons. simpl. rewrite IH. apply orb_assoc.
Qed.

(** A string without the separator is its own single segment. *)
Lemma split_no_sep (s : string) (c : ascii) :
  mem c s = false → split s c = [s].
Proof.
  induction s as [|a s IH]; [reflexivity|]. simpl.
  rewrite Ascii.eqb_sym. intros [Ha Hs]%orb_false_elim.
  rewrite Ha, (IH Hs). reflexivity.
Qed.

Lemma split_app_sep (x s : string) (c : ascii) :
  mem c x = false → split (x +:+ String c s) c = x :: split s c.
Proof.
  induction x as [|a x IH]; intros Hx.
  - rewrite str_app_empty_l. simpl. rewrite Ascii.eqb_refl. reflexivity.
  - rewrite str_app_cons. simpl in *. rewrite Ascii.eqb_sym in Hx.
    apply orb_false_elim in Hx as [Ha Hx].
    rewrite Ha, (IH Hx). reflexivity.
Qed.

(** No segment holds the separator. *)
Lemma split_segments_no_sep (s : string) (c : ascii) :
  Forall (λ x, mem c x = false) (split s c).
Proof.
  induction s as [|a s IH]; simpl.
  - repeat constructor.
  - destruct (Ascii.eqb a c) eqn:Hac.
    + constructor; [reflexivity | exact IH].
    + destruct (split s c) as [|h t].
      * repeat constructor. simpl. rewrite Ascii.eqb_sym, Hac. reflexivity.
      * inversion IH as [|? ? Hh Ht]; subst. constructor; [|exact Ht].
        simpl. rewrite Ascii.eqb_sym, Hac. exact Hh.
Qed.

(** Splitting what [join] built gives the joined list back. *)
Lemma split_join (l : list string) (c : ascii) :
  l ≠ [] → Forall (λ x, mem c x = false) l →
  split (join (String c "") l) c = l.
Proof.
  induction l as [|x l IH]; [congruence|]. intros _ Hl.
  inversion Hl as [|? ? Hx Hl']; subst.
  destruct l as [|y l].
  - simpl. apply split_no_sep, Hx.
  - change (join (String c "") (x :: y :: l))
      with (x +:+ String c "" +:+ join (String c "") (y :: l)).
    change (String c "" +:+ join (String c "") (y :: l))
      with (String c (join (String c "") (y :: l))).
    rewrite (split_app_sep _ _ _ Hx), IH; [reflexivity | congruence | exact Hl'].
Qed.

Lemma endswith_no_sep (b : string) (c : ascii) :
  mem c b = false → endswith b (String c "") = false.
Proof.
  induction b as [|a b IH]; [reflexivity|]. simpl.
  intros [Ha Hb]%orb_false_elim. rewrite (IH Hb), orb_false_r.
  destruct (Ascii.eqb a c) eqn:Hac; [|reflexivity].
  rewrite Ascii.eqb_sym in Hac. congruence.
Qed.

Lemma endswith_app (x b : string) (c : ascii) :
  b ≠ "" → endswith (x +:+ b) (String c "") = endswith b (String c "").
Proof.
  intros Hb. induction x as [|a x IH]; [reflexivity|].
  rewrite str_app_cons. simpl. rewrite IH.
  destruct (Ascii.eqb a c); [|reflexivity].
  destruct (x +:+ b) eqn:Hxb; [|reflexivity].
  apply str_app_eq_empty in Hxb as [_ ?]. contradiction.
Qed.



End StringFacts.

Section PathFacts.
Import PyStr posixpath PathResolver.

Lemma Segment_no_sep (c : string) : Segment c → mem sep_char c = false.
Proof. intros (_ & _ & _ & H). exact H. Qed.

Lemma Segment_not_rooted (c : string) : Segment c → startswith c sep = false.
Proof.
  intros (Hne & _ & _ & Hm). destruct c as [|a c]; [congruence|].
  rewrite str_mem_cons in Hm. apply orb_false_elim in Hm as [Ha _].
  change sep with (String sep_char ""). rewrite startswith_char. exact Ha.
Qed.

Lemma Forall_Segment_snoc (l : list string) (c : string) :
  Forall Segment l → Segment c → Forall Segment (l ++ [c]).
Proof. intros Hl Hc. apply Forall_app. split; [exact Hl | constructor; [exact Hc | constructor]]. Qed.

Lemma Forall_removelast {A} (P : A → Prop) (l : list A) :
  Forall P l → Forall P (removelast l).
Proof.
  induction 1 as [|x l Hx Hl IH]; [constructor|].
  simpl. destruct l; [constructor|]. constructor; [exact Hx | exact IH].
Qed.

Lemma Segment_last (l : list string) :
  Forall Segment l → last l ≠ Some pardir.
Proof.
  intros Hl Hlast. apply last_Some in Hlast as [l' ->].
  apply Forall_app in Hl as [_ Hl]. inversion Hl as [|? ? (_ & _ & Hp & _) _]; subst.
  apply Hp. reflexivity.
Qed.

(** Below a root, a step of [normpath] is a step of [collapse]. *)
Lemma normpath_step_rooted (k : nat) (acc : list string) (comp : string) :
  Forall Segment acc →
  normpath_step (S k) acc comp = collapse_step acc comp.
Proof.
  intros Hacc. unfold normpath_step, collapse_step, curdir, pardir.
  destruct (bool_decide (comp = "" ∨ comp = ".")); [reflexivity|].
  simpl. rewrite orb_false_r.
  rewrite (bool_decide_eq_false_2 (last acc = Some "..")) by (apply Segment_last, Hacc).
  rewrite andb_false_r, orb_false_r.
  destruct (decide (comp = "..")) as [->|Hne].
  - reflexivity.
  - rewrite (bool_decide_eq_true_2 _ Hne), (bool_decide_eq_false_2 _ Hne). reflexivity.
Qed.

Lemma collapse_step_Segment (acc : list string) (comp : string) :
  Forall Segment acc → mem sep_char comp = false →
  Forall Segment (collapse_step acc comp).
Proof.
  intros Hacc Hcomp. unfold collapse_step.
  destruct (bool_decide (comp = "" ∨ comp = ".")) eqn:H1; [exact Hacc|].
  apply bool_decide_eq_false in H1.
  destruct (bool_decide (comp = "..")) eqn:H2.
  - apply Forall_removelast, Hacc.
  - apply bool_decide_eq_false in H2. apply Forall_Segment_snoc; [exact Hacc|].
    unfold Segment. intuition.
Qed.

Lemma foldl_collapse_Segment (comps acc : list string) :
  Forall Segment acc → Forall (λ x, mem sep_char x = false) comps →
  Forall Segment (foldl collapse_step acc comps).
Proof.
  revert acc. induction comps as [|c comps IH]; intros acc Hacc Hc; [exact Hacc|].
  inversion Hc; subst. simpl. apply IH; [|assumption].
  apply collapse_step_Segment; assumption.
Qed.

Lemma foldl_normpath_rooted (k : nat) (comps acc : list string) :
  Forall Segment acc → Forall (λ x, mem sep_char x = false) comps →
  foldl (normpath_step (S k)) acc comps = foldl collapse_step acc comps.
Proof.
  revert acc. induction comps as [|c comps IH]; intros acc Hacc Hc; [reflexivity|].
  inversion Hc; subst. simpl. rewrite normpath_step_rooted by exact Hacc.
  apply IH; [|assumption]. apply collapse_step_Segment; assumption.
Qed.

Lemma collapse_Segment (path : string) : Forall Segment (collapse path).
Proof.
  apply foldl_collapse_Segment; [constructor | apply split_segments_no_sep].
Qed.

(** [os.path.join("/", filename)] *)
Lemma join_root (f : string) :
  join "/" [f] = if startswith f sep then f else "/" +:+ f.
Proof. unfold join. simpl. unfold join_step. destruct (startswith f sep); reflexivity. Qed.

Lemma join_root_rooted (f : string) : startswith (join "/" [f]) sep = true.
Proof.
  rewrite join_root. destruct (startswith f sep) eqn:H; [exact H|].
  change ("/" +:+ f) with (String sep_char f). change sep with (String sep_char "").
  rewrite startswith_char. reflexivity.
Qed.

Lemma initial_slashes_rooted (p : string) :
  startswith p sep = true → ∃ k, initial_slashes p = S k ∧ (k = 0 ∨ k = 1).
Proof.
  intros H. unfold initial_slashes. rewrite H.
  destruct (_ && _); eauto.
Qed.

(** The leading empty segment of a rooted path does not count. *)
Lemma collapse_join_root (f : string) :
  collapse (join "/" [f]) = collapse f.
Proof.
  rewrite join_root. destruct (startswith f sep) eqn:H; [reflexivity|].
  unfold collapse, segments. reflexivity.
Qed.

Lemma normpath_comps_rooted (p : string) :
  startswith p sep = true → normpath_comps p = collapse p.
Proof.
  intros H. destruct (initial_slashes_rooted p H) as (k & Hk & _).
  unfold normpath_comps, collapse, segments. rewrite Hk.
  apply foldl_normpath_rooted; [constructor | apply split_segments_no_sep].
Qed.

Lemma str_join_cons (a : string) (p : list string) :
  PyStr.join "/" (a :: p) = a +:+ tail_join p.
Proof.
  revert a. induction p as [|b p IH]; intros a.
  - simpl. symmetry. apply str_app_empty_r.
  - change (PyStr.join "/" (a :: b :: p)) with (a +:+ "/" +:+ PyStr.join "/" (b :: p)).
    rewrite IH. reflexivity.
Qed.

Lemma join_Segments_not_rooted (l : list string) :
  Forall Segment l → startswith (PyStr.join "/" l) sep = false.
Proof.
  destruct l as [|a p]; [reflexivity|]. intros Hl. inversion Hl as [|? ? Ha _]; subst.
  rewrite str_join_cons. pose proof (Segment_not_rooted a Ha) as Hs.
  destruct Ha as (Hne & _). destruct a as [|c a]; [congruence|].
  rewrite str_app_cons. change sep with (String sep_char "") in *.
  rewrite startswith_char in *. exact Hs.
Qed.

Lemma join_Segments_nonempty (a : string) (p : list string) :
  Segment a → PyStr.join "/" (a :: p) ≠ "".
Proof.
  intros (Hne & _). rewrite str_join_cons. intros [? _]%str_app_eq_empty. contradiction.
Qed.

(** [os.path.join] of proper segments is ["/".join]. *)
Lemma foldl_join_step (p : list string) (acc : string) :
  acc ≠ "" → endswith acc sep = false → Forall Segment p →
  foldl join_step acc p = acc +:+ tail_join p.
Proof.
  revert acc. induction p as [|b p IH]; intros acc Hne Hend Hp.
  - simpl. symmetry. apply str_app_empty_r.
  - inversion Hp as [|? ? Hb Hp']; subst. simpl.
    assert (join_step acc b = acc +:+ "/" +:+ b) as ->.
    { unfold join_step. rewrite (Segment_not_rooted b Hb), Hend, orb_false_r.
      destruct (String.eqb_spec acc ""); [contradiction | reflexivity]. }
    rewrite IH; [| | |exact Hp'].
    + rewrite !str_app_assoc. reflexivity.
    + intros [? _]%str_app_eq_empty. contradiction.
    + destruct Hb as (Hbne & _ & _ & Hm).
      rewrite <- str_app_assoc. change sep with (String sep_char "").
      rewrite endswith_app by exact Hbne.
      apply endswith_no_sep, Hm.
Qed.

Lemma join_Segments (a : string) (p : list string) :
  Forall Segment (a :: p) → join a p = PyStr.join "/" (a :: p).
Proof.
  intros Hl. inversion Hl as [|? ? Ha Hp]; subst.
  rewrite str_join_cons. apply foldl_join_step; [| |exact Hp].
  - destruct Ha as (Hne & _). exact Hne.
  - apply endswith_no_sep, Segment_no_sep, Ha.
Qed.

End PathFacts.

Section ZoneFilename.
Import PyStr posixpath PathResolver GitProvider.

Lemma lstrip_not_starting (s : string) (c : ascii) :
  startswith s (String c "") = false → lstrip s (String c "") = s.
Proof.
  destruct s as [|a s]; [reflexivity|]. rewrite startswith_char. intros H.
  simpl. rewrite Ascii.eqb_sym, H. reflexivity.
Qed.

Lemma normpath_rooted (p : string) :
  startswith p sep = true →
  ∃ k, (k = 0 ∨ k = 1) ∧
    normpath p = String sep_char (times sep k +:+ PyStr.join sep (collapse p)).
Proof.
  intros Hp. destruct (initial_slashes_rooted p Hp) as (k & Hk & Hk').
  exists k. split; [exact Hk'|]. unfold normpath.
  destruct p as [|a p]; [discriminate|].
  rewrite normpath_comps_rooted, Hk by exact Hp. reflexivity.
Qed.

(** [os.path.relpath(os.path.join("/", filename), "/")] collapses
    [filename] below the root. *)
Lemma relpath_under_root (cwd f : string) :
  relpath cwd (join "/" [f]) "/" = Ret (render (collapse f)).
Proof.
  pose proof (join_root_rooted f) as Hp.
  rewrite <- (collapse_join_root f).
  destruct (normpath_rooted _ Hp) as (k & Hk & Hn).
  pose proof (collapse_Segment (join "/" [f])) as Hseg.
  set (p := join "/" [f]) in *. set (comps := collapse p) in *.
  unfold relpath.
  destruct (String.eqb_spec p "") as [E|_]; [rewrite E in Hp; discriminate|].
  assert (abspath cwd "/" = "/") as -> by reflexivity.
  assert (abspath cwd p = normpath p) as ->.
  { unfold abspath, isabs. rewrite Hp. reflexivity. }
  rewrite Hn.
  assert (lstrip (String sep_char (times sep k +:+ PyStr.join sep comps)) sep
          = PyStr.join sep comps) as ->.
  { change sep with (String sep_char "").
    pose proof (join_Segments_not_rooted comps Hseg) as Hj.
    change sep with (String sep_char "") in Hj.
    destruct Hk as [-> | ->].
    - change (lstrip (PyStr.join (String sep_char "") comps) (String sep_char "")
              = PyStr.join (String sep_char "") comps).
      apply lstrip_not_starting, Hj.
    - change (lstrip (PyStr.join (String sep_char "") comps) (String sep_char "")
              = PyStr.join (String sep_char "") comps).
      apply lstrip_not_starting, Hj. }
  change (lstrip "/" sep) with "". cbv iota beta.
  change (String.eqb "" "") with true. cbv iota beta.
  change (commonprefix [] ?l) with (@nil string).
  destruct comps as [|a l] eqn:Hc.
  - reflexivity.
  - inversion Hseg as [|? ? Ha Hl]; subst.
    destruct (String.eqb_spec (PyStr.join sep (a :: l)) "") as [E|_].
    { exfalso. exact (join_Segments_nonempty a l Ha E). }
    change sep with (String sep_char "").
    rewrite split_join;
      [| congruence
       | eapply Forall_impl; [exact Hseg | intros ?; apply Segment_no_sep]].
    simpl. f_equal. apply (join_Segments a l Hseg).
Qed.

Lemma join_empty (d : string) : join "" [d] = d.
Proof. unfold join. simpl. unfold join_step. destruct (startswith d sep); reflexivity. Qed.

(** The provider's resolver computes what the specification describes. *)
Lemma zone_filename_resolve (cwd : string) (self : Provider) :
  _zone_filename cwd self
  = Ret (resolve (options self !! "git_path") (domain self)).
Proof.
  unfold _zone_filename, resolve. rewrite relpath_under_root. do 3 f_equal.
  unfold choose. destruct (options self !! "git_path") as [t|].
  - destruct t as [|a t]; [apply join_empty | reflexivity].
  - apply join_empty.
Qed.

(** A proper segment resolves to itself. *)
Lemma collapse_Segment_id (d : string) : Segment d → render (collapse d) = d.
Proof.
  intros Hd. unfold collapse, segments.
  rewrite (split_no_sep d sep_char) by (apply Segment_no_sep, Hd).
  destruct Hd as (H1 & H2 & H3 & _). simpl. unfold collapse_step.
  rewrite bool_decide_eq_false_2 by (intros [?|?]; contradiction).
  rewrite bool_decide_eq_false_2 by exact H3. reflexivity.
Qed.

Lemma render_segments (comps : list string) :
  Forall Segment comps →
  (pardir ∉ segments (render comps)) ∧ isabs (render comps) = false.
Proof.
  intros Hseg. destruct comps as [|a l].
  - split; [|reflexivity]. intros H. apply list_elem_of_In in H. simpl in H.
    destruct H as [H|[]]. discriminate.
  - unfold render, segments. split.
    + change "/" with (String sep_char "").
      rewrite split_join;
        [| congruence
         | eapply Forall_impl; [exact Hseg | intros ?; apply Segment_no_sep]].
      intros H. rewrite Forall_forall in Hseg.
      destruct (Hseg _ H) as (_ & _ & Hp & _). apply Hp. reflexivity.
    + apply (join_Segments_not_rooted (a :: l) Hseg).
Qed.

End ZoneFilename.
(** * Occurrences and substitution *)

Section SubstitutionFacts.
Import PyStr.

Lemma str_length_app (s t : string) :
  String.length (s +:+ t) = (String.length s + String.length t)%nat.
Proof. induction s as [|a s IH]; [reflexivity|]. rewrite str_app_cons. simpl. lia. Qed.

Lemma startswith_prefix (s p : string) :
  startswith s p = true ↔ ∃ post, s = p +:+ post.
Proof.
  revert s. induction p as [|a p IH]; intros s.
  - split; [intros _; exists s; reflexivity | intros _; destruct s; reflexivity].
  - destruct s as [|b s].
    + split; [discriminate | intros [post H]; discriminate].
    + simpl. destruct (Ascii.eqb_spec a b) as [->|Hne].
      * rewrite IH. split; intros [post H]; exists post.
        -- rewrite H. reflexivity.
        -- rewrite str_app_cons in H. congruence.
      * split; [discriminate|]. intros [post H].
        rewrite str_app_cons in H. congruence.
Qed.

Lemma endswith_suffix (s p : string) :
  endswith s p = true ↔ ∃ pre, s = pre +:+ p.
Proof.
  induction s as [|a s IH].
  - cbn [endswith]. rewrite orb_false_r. split.
    + intros H. apply String.eqb_eq in H. exists "". exact H.
    + intros [pre H]. symmetry in H. apply str_app_eq_empty in H as [_ ->].
      reflexivity.
  - cbn [endswith]. rewrite orb_true_iff, IH. split.
    + intros [H | [pre H]].
      * apply String.eqb_eq in H. exists "". exact H.
      * exists (String a pre). rewrite H. reflexivity.
    + intros [[|b pre] H].
      * left. apply String.eqb_eq. exact H.
      * right. exists pre. rewrite str_app_cons in H. congruence.
Qed.

Lemma occurs_cons (sub : string) (a : ascii) (s : string) :
  occurs sub (String a s) ↔ (∃ post, String a s = sub +:+ post) ∨ occurs sub s.
Proof.
  split.
  - intros ([|b before] & after & H).
    + left. exists after. exact H.
    + right. exists before, after. rewrite str_app_cons in H. congruence.
  - intros [[post H] | (before & after & H)].
    + exists "", post. exact H.
    + exists (String a before), after. rewrite H. reflexivity.
Qed.

Lemma occurs_empty (sub : string) : occurs sub "" ↔ sub = "".
Proof.
  split.
  - intros (before & after & H). symmetry in H.
    apply str_app_eq_empty in H as [_ H].
    apply str_app_eq_empty in H as [H _]. exact H.
  - intros ->. exists "", "". reflexivity.
Qed.

(** [sub in s] holds exactly when [sub] occurs in [s]. *)
Lemma contains_occurs (sub s : string) :
  contains sub s = true ↔ occurs sub s.
Proof.
  induction s as [|a s IH].
  - simpl. rewrite orb_false_r, occurs_empty.
    destruct sub; [tauto | split; discriminate].
  - cbn [contains]. rewrite orb_true_iff, IH, occurs_cons, startswith_prefix.
    reflexivity.
Qed.

Lemma not_contains_occurs (sub s : string) :
  contains sub s = false ↔ ¬ occurs sub s.
Proof. rewrite <- contains_occurs. destruct (contains sub s); split; congruence. Qed.

Lemma occurs_dec (sub s : string) : occurs sub s ∨ ¬ occurs sub s.
Proof.
  rewrite <- contains_occurs. destruct (contains sub s); [left | right]; congruence.
Qed.

(** A prefix of a text that starts with [q]: either it covers [q], or it
    stops inside [q]. *)
Lemma startswith_app_cases (q s o : string) :
  startswith (q +:+ s) o = true →
  (∃ post, q = o +:+ post) ∨ (∃ o2, o = q +:+ o2 ∧ startswith s o2 = true).
Proof.
  revert o. induction q as [|a q IH]; intros o H.
  - right. exists o. split; [reflexivity | exact H].
  - destruct o as [|b o]; [left; exists (String a q); reflexivity|].
    rewrite str_app_cons in H. simpl in H.
    destruct (Ascii.eqb_spec b a) as [->|]; [|discriminate].
    destruct (IH o H) as [[post ->] | (o2 & -> & H2)].
    + left. exists post. reflexivity.
    + right. exists o2. split; [reflexivity | exact H2].
Qed.

Lemma replace_go_drop (old new o rest : string) :
  replace_go old new (String.length o) (o +:+ rest) = replace_go old new 0 rest.
Proof.
  induction o as [|a o IH]; [reflexivity|].
  rewrite str_app_cons. cbn [String.length replace_go]. exact IH.
Qed.

(** A text without [old] is left as it is. *)
Lemma replace_go_free (old new p : string) :
  ¬ occurs old p → replace_go old new 0 p = p.
Proof.
  induction p as [|a p IH]; intros Hfree; [reflexivity|].
  cbn [replace_go].
  destruct (startswith (String a p) old) eqn:Hs.
  - exfalso. apply Hfree. apply startswith_prefix in Hs as [post Hs].
    exists "", post. exact Hs.
  - rewrite IH; [reflexivity|]. intros Hp. apply Hfree, occurs_cons. right. exact Hp.
Qed.

Section Placeholder.
(** A pattern whose first character does not come back in it cannot
    overlap itself. *)
Variables (c : ascii) (old' : string).
Hypothesis head_once : mem c old' = false.

Lemma replace_go_piece (new p rest : string) :
  ¬ occurs (String c old') p →
  replace_go (String c old') new 0 (p +:+ (String c old') +:+ rest)
  = p +:+ new +:+ replace_go (String c old') new 0 rest.
Proof.
  induction p as [|a p IH]; intros Hfree.
  - rewrite !str_app_empty_l, str_app_cons.
    cbn [replace_go].
    assert (startswith (String c (old' +:+ rest)) (String c old') = true) as ->.
    { apply startswith_prefix. exists rest. reflexivity. }
    f_equal.
    assert (String.length (String c old') - 1 = String.length old')%nat as ->
      by (cbn [String.length]; lia).
    apply replace_go_drop.
  - rewrite !(str_app_cons a p). cbn [replace_go].
    destruct (startswith (String a (p +:+ (String c old') +:+ rest)) (String c old')) eqn:Hs.
    + exfalso. rewrite <- str_app_cons in Hs.
      apply startswith_app_cases in Hs as [[post Hs] | (o2 & Ho & Hs)].
      * apply Hfree. exists "", post. exact Hs.
      * rewrite str_app_cons in Ho. injection Ho as -> Ho.
        destruct o2 as [|x o2].
        -- apply Hfree. exists "", "". rewrite str_app_empty_r in Ho.
           rewrite Ho, str_app_empty_l, str_app_empty_r. reflexivity.
        -- rewrite str_app_cons in Hs. simpl in Hs.
           destruct (Ascii.eqb_spec x a) as [->|]; [|discriminate].
           rewrite Ho, str_mem_app, str_mem_cons, Ascii.eqb_refl in head_once.
           rewrite orb_true_r in head_once. discriminate.
    + rewrite IH; [reflexivity|].
      intros Hp. apply Hfree, occurs_cons. right. exact Hp.
Qed.

(** Replacing the pattern in pieces free of it that are held together by
    the pattern puts [new] between the pieces. *)
Lemma replace_joined_by (new : string) (pieces : list string) :
  Forall (λ p, ¬ occurs (String c old') p) pieces →
  replace (joined_by (String c old') pieces) (String c old') new = joined_by new pieces.
Proof.
  unfold replace. induction 1 as [|p pieces Hp Hrest IH]; [reflexivity|].
  destruct pieces as [|q pieces]; [apply replace_go_free, Hp|].
  change (joined_by (String c old') (p :: q :: pieces))
    with (p +:+ (String c old') +:+ joined_by (String c old') (q :: pieces)).
  rewrite replace_go_piece by exact Hp. rewrite IH. reflexivity.
Qed.

Lemma joined_by_cons (sep p : string) (pieces : list string) :
  pieces ≠ [] → joined_by sep (p :: pieces) = p +:+ sep +:+ joined_by sep pieces.
Proof. destruct pieces; [congruence | reflexivity]. Qed.

(** The first occurrence: no occurrence lies in what precedes it. *)
Lemma first_occurrence (t : string) :
  occurs (String c old') t → ∃ pre post, t = pre +:+ (String c old') +:+ post ∧ ¬ occurs (String c old') pre.
Proof.
  induction t as [|a t IH]; intros Ht.
  - apply occurs_empty in Ht. discriminate.
  - destruct (startswith (String a t) (String c old')) eqn:Hs.
    + apply startswith_prefix in Hs as [post Hs]. exists "", post.
      split; [exact Hs|]. intros H. apply occurs_empty in H. discriminate.
    + apply occurs_cons in Ht as [[post Ht] | Ht].
      * assert (startswith (String a t) (String c old') = true) as Hs'
          by (apply startswith_prefix; exists post; exact Ht).
        congruence.
      * destruct (IH Ht) as (pre & post & -> & Hpre).
        exists (String a pre), post. split; [reflexivity|].
        intros H. apply occurs_cons in H as [[post' H] | H]; [|tauto].
        assert (startswith (String a (pre +:+ (String c old') +:+ post)) (String c old') = true) as Hs'.
        { apply startswith_prefix. exists (post' +:+ (String c old') +:+ post).
          rewrite <- str_app_cons, H, str_app_assoc. reflexivity. }
        congruence.
Qed.

(** Every text is pieces free of the pattern, held together by the pattern. *)
Lemma joined_by_pieces (t : string) :
  ∃ pieces, pieces ≠ [] ∧ t = joined_by (String c old') pieces
            ∧ Forall (λ p, ¬ occurs (String c old') p) pieces.
Proof.
  remember (String.length t) as n eqn:Hn. revert t Hn.
  induction n as [n IH] using lt_wf_ind. intros t Hn.
  destruct (occurs_dec (String c old') t) as [Ht | Ht].
  - apply first_occurrence in Ht as (pre & post & -> & Hpre).
    destruct (IH (String.length post)) with (t := post)
      as (pieces & Hne & -> & Hall); [|reflexivity|].
    { subst n. rewrite !str_length_app. cbn [String.length]. lia. }
    exists (pre :: pieces). split; [discriminate|]. split.
    + rewrite joined_by_cons by exact Hne. reflexivity.
    + constructor; assumption.
  - exists [t]. split; [discriminate|]. split; [reflexivity|].
    constructor; [exact Ht | constructor].
Qed.

Lemma occurs_joined_by (pieces : list string) :
  (2 ≤ List.length pieces)%nat → occurs (String c old') (joined_by (String c old') pieces).
Proof.
  destruct pieces as [|p [|q pieces]]; simpl; [lia | lia |]. intros _.
  exists p, (joined_by (String c old') (q :: pieces)). reflexivity.
Qed.
End Placeholder.

End SubstitutionFacts.

(** * The path resolver *)

Section PathResolverClaims.
Import PyStr posixpath PathResolver GitProvider.

(** The cases of [test_zone_filename]. *)
Example test_zone_filename (cwd : string) :
  Forall (λ '(path, expect),
    _zone_filename cwd (BaseProvider_init {["git_path" := path]} "example.com")
    = Ret expect)
  [ ("", "example.com"); ("foo", "foo/example.com");
    ("{domain}", "example.com"); ("db.{domain}", "db.example.com");
    ("{domain}.zone", "example.com.zone");
    ("foo/db.{domain}.zone", "foo/db.example.com.zone");
    ("{domain}/db.{domain}.zone", "example.com/db.example.com.zone");
    ("/foo", "foo/example.com"); ("./foo", "foo/example.com");
    ("foo/../bar", "bar/example.com"); ("../../../foo", "foo/example.com");
    ("foo/../..", "example.com") ].
Proof. repeat constructor. Qed.

(** C5: for every template and domain the resolved zone-file path has no
    [..] segment and is relative (it does not start at a root), whatever
    [../] or absolute prefixes the template has; the template
    ["../../../foo"] with the domain ["example.com"] resolves to
    ["foo/example.com"], and ["foo/../.."] to ["example.com"]. *)
Theorem zone_filename_within_root (cwd : string) :
  (∀ self : Provider, ∃ path,
      _zone_filename cwd self = Ret path
      ∧ (".." ∉ segments path) ∧ isabs path = false)
  ∧ _zone_filename cwd
      (BaseProvider_init {["git_path" := "../../../foo"]} "example.com")
    = Ret "foo/example.com"
  ∧ _zone_filename cwd
      (BaseProvider_init {["git_path" := "foo/../.."]} "example.com")
    = Ret "example.com".
Proof.
  split; [|split; reflexivity].
  intros self. eexists. split; [apply zone_filename_resolve|].
  apply render_segments, collapse_Segment.
Qed.

Lemma placeholder_head_once : mem "{"%char "domain}" = false.
Proof. reflexivity. Qed.

(** C6: the resolver has three exclusive branches, and each of them
    chooses a path that is then normalised below the root (empty, [.]
    and [..] segments resolved, the result relative).  With the template
    absent or empty the chosen path is the domain, which is returned as
    it is when it is one proper segment.  With a template in which
    ["{domain}"] occurs, that is pieces free of ["{domain}"] with
    ["{domain}"] between each two of them, the chosen path is the same
    pieces with the domain between them: every occurrence is replaced,
    and the domain is not joined to it.  Otherwise the chosen path is the
    join of template and domain: the domain alone when it starts with
    ["/"], else the template, a ["/"] unless the template ends with one,
    and the domain.  Every template falls under one of the last two
    descriptions, and under the second one exactly when ["{domain}"]
    occurs in it. *)
Theorem zone_filename_branches (cwd : string) (self : Provider) :
  let template := options self !! "git_path" in
  let d := domain self in
  let under_root path := Ret (render (collapse path)) in
  (template = None ∨ template = Some "" →
     _zone_filename cwd self = under_root d
     ∧ (Segment d → _zone_filename cwd self = Ret d))
  ∧ (∀ pieces, template = Some (joined_by "{domain}" pieces) →
       (2 ≤ List.length pieces)%nat →
       Forall (λ piece, ¬ occurs "{domain}" piece) pieces →
       _zone_filename cwd self = under_root (joined_by d pieces))
  ∧ (∀ t, template = Some t → t ≠ "" → ¬ occurs "{domain}" t →
       _zone_filename cwd self = under_root (join t [d])
       ∧ ((∃ d', d = "/" +:+ d') → _zone_filename cwd self = under_root d)
       ∧ ((∀ d', d ≠ "/" +:+ d') → (∃ t', t = t' +:+ "/") →
            _zone_filename cwd self = under_root (t +:+ d))
       ∧ ((∀ d', d ≠ "/" +:+ d') → (∀ t', t ≠ t' +:+ "/") →
            _zone_filename cwd self = under_root (t +:+ "/" +:+ d)))
  ∧ (∀ t, template = Some t →
       ∃ pieces, pieces ≠ [] ∧ t = joined_by "{domain}" pieces
         ∧ Forall (λ piece, ¬ occurs "{domain}" piece) pieces
         ∧ (occurs "{domain}" t ↔ (2 ≤ List.length pieces)%nat)).
Proof.
  intros template d under_root. subst under_root. cbv beta.
  rewrite zone_filename_resolve. fold template. fold d. unfold resolve.
  split; [|split; [|split]].
  - intros Habsent.
    assert (choose template d = d) as ->.
    { destruct Habsent as [-> | ->]; reflexivity. }
    split; [reflexivity|]. intros Hd. f_equal. apply collapse_Segment_id, Hd.
  - intros pieces -> Hlen Hfree. unfold choose.
    pose proof (occurs_joined_by "{"%char "domain}" pieces Hlen) as Hocc.
    apply contains_occurs in Hocc. rewrite Hocc.
    rewrite (replace_joined_by "{"%char "domain}" placeholder_head_once d pieces Hfree).
    destruct (joined_by "{domain}" pieces) eqn:Ht; [|reflexivity].
    apply contains_occurs, occurs_empty in Hocc. discriminate.
  - intros t -> Hne Hfree. unfold choose.
    apply not_contains_occurs in Hfree. rewrite Hfree.
    assert (render (collapse (match t with "" => d | String _ _ => join t [d] end))
            = render (collapse (join t [d]))) as Hjoin
      by (destruct t; [congruence | reflexivity]).
    split; [f_equal; exact Hjoin|]. rewrite Hjoin. clear Hjoin.
    unfold join. cbn [foldl]. unfold join_step, sep.
    split; [|split].
    + intros Hd. apply startswith_prefix in Hd. rewrite Hd. reflexivity.
    + intros Hd Ht.
      assert (startswith d "/" = false) as ->.
      { destruct (startswith d "/") eqn:E; [|reflexivity].
        apply startswith_prefix in E as [d' E]. destruct (Hd d' E). }
      apply endswith_suffix in Ht. rewrite Ht, orb_true_r. reflexivity.
    + intros Hd Ht.
      assert (startswith d "/" = false) as ->.
      { destruct (startswith d "/") eqn:E; [|reflexivity].
        apply startswith_prefix in E as [d' E]. destruct (Hd d' E). }
      assert (endswith t "/" = false) as ->.
      { destruct (endswith t "/") eqn:E; [|reflexivity].
        apply endswith_suffix in E as [t' E]. destruct (Ht t' E). }
      apply String.eqb_neq in Hne. rewrite Hne. reflexivity.
  - intros t _.
    destruct (joined_by_pieces "{"%char "domain}" t) as (pieces & Hne & Ht & Hfree).
    exists pieces. split; [exact Hne|]. split; [exact Ht|]. split; [exact Hfree|].
    split; [|intros Hlen; rewrite Ht; apply occurs_joined_by, Hlen].
    intros Hocc. destruct pieces as [|p [|q pieces]]; [congruence | | simpl; lia].
    simpl in Ht. subst p. apply Forall_inv in Hfree. contradiction.
Qed.

Lemma zone_filename_branches_witness :
  _zone_filename "/srv" (BaseProvider_init ∅ "example.com") = Ret "example.com"
  ∧ _zone_filename "/srv"
      (BaseProvider_init {["git_path" := "{domain}/db.{domain}.zone"]} "example.com")
    = Ret "example.com/db.example.com.zone"
  ∧ _zone_filename "/srv"
      (BaseProvider_init {["git_path" := "foo/../bar"]} "example.com")
    = Ret "bar/example.com"
  ∧ _zone_filename "/srv"
      (BaseProvider_init {["git_path" := "zones/"]} "example.com")
    = Ret "zones/example.com".
Proof.
  split; [|split; [|split]].
  - destruct (zone_filename_branches "/srv" (BaseProvider_init ∅ "example.com"))
      as (Habsent & _).
    destruct (Habsent (or_introl eq_refl)) as (_ & Hd).
    apply Hd. unfold Segment. simpl. repeat split; discriminate.
  - destruct (zone_filename_branches "/srv"
        (BaseProvider_init {["git_path" := "{domain}/db.{domain}.zone"]} "example.com"))
      as (_ & Hplaceholder & _).
    rewrite (Hplaceholder [""; "/db."; ".zone"]); [reflexivity | reflexivity | simpl; lia |].
    repeat constructor; apply not_contains_occurs; reflexivity.
  - destruct (zone_filename_branches "/srv"
        (BaseProvider_init {["git_path" := "foo/../bar"]} "example.com"))
      as (_ & _ & Hjoin & _).
    destruct (Hjoin "foo/../bar" eq_refl) as (_ & _ & _ & Hplain);
      [discriminate | apply not_contains_occurs; reflexivity |].
    rewrite Hplain; [reflexivity | |].
    + intros d' H. discriminate H.
    + intros t' H. assert (endswith "foo/../bar" "/" = true) as E
        by (apply endswith_suffix; exists t'; exact H).
      discriminate E.
  - destruct (zone_filename_branches "/srv"
        (BaseProvider_init {["git_path" := "zones/"]} "example.com"))
      as (_ & _ & Hjoin & _).
    destruct (Hjoin "zones/" eq_refl) as (_ & _ & Hslash & _);
      [discriminate | apply not_contains_occurs; reflexivity |].
    rewrite Hslash; [reflexivity | |].
    + intros d' H. discriminate H.
    + exists "zones". reflexivity.
Defined.

(** C6, as the specification words it, fails: the path is not "the domain
    itself", "the template with the domain substituted" or "the join of
    template and domain", but what the normalisation below the root
    makes of these. *)
Lemma zone_filename_is_not_the_chosen_path :
  (let self := BaseProvider_init ∅ "a//b" in
   options self !! "git_path" = None
   ∧ _zone_filename "/" self = Ret "a/b" ∧ "a/b" ≠ domain self)
  ∧ (let self := BaseProvider_init {["git_path" := "../{domain}"]} "example.com" in
     _zone_filename "/" self = Ret "example.com"
     ∧ "example.com" ≠ replace "../{domain}" "{domain}" (domain self))
  ∧ (let self := BaseProvider_init {["git_path" := "/foo"]} "example.com" in
     _zone_filename "/" self = Ret "foo/example.com"
     ∧ "foo/example.com" ≠ join "/foo" [domain self]).
Proof. repeat split; discriminate. Qed.

End PathResolverClaims.

(** * The Git provider: commit and push *)

Section CommitFacts.
Import PyStr GitProvider Session.



(** [_push] never names a branch: its one request is [Remote.push()]. *)
Lemma push_trace (env : Env) (kwargs : gmap string string) (self : Provider) :
  ∃ logged, trace (_push env kwargs self).2
            = trace self ++ EvPush None ∅ :: logged
          ∧ Forall (λ e, is_push e = false) logged.
Proof.
  unfold _push, bind, emit, log, modify, ret, raise. simpl.
  destruct (push_reply env) as [|info rest]; simpl.
  - exists []. split; [reflexivity | constructor].
  - destruct (Z.eqb _ _); simpl; eexists; rewrite <- !app_assoc;
      (split; [reflexivity | repeat constructor]).
Qed.

Lemma push_repo (env : Env) (kwargs : gmap string string) (self : Provider) :
  repo (_push env kwargs self).2 = repo self.
Proof.
  unfold _push, bind, emit, log, modify, ret, raise. simpl.
  destruct (push_reply env) as [|info rest]; simpl; [reflexivity|].
  destruct (Z.eqb _ _); reflexivity.
Qed.

(** An index compared with the tree it was committed as. *)
Lemma index_diff_committed (r : Repo) (msg : string) (a c : Actor) :
  index_diff r (mkCommit (index r) msg a c) = ∅.
Proof.
  unfold index_diff. simpl. apply map_eq. intros i.
  rewrite lookup_merge, lookup_empty. unfold diag_None, diff_entry.
  destruct (index r !! i); [|reflexivity]. rewrite decide_True by reflexivity.
  reflexivity.
Qed.

(** Staging the same working copy a second time changes nothing. *)
Lemma index_add_star_idemp (r : Repo) :
  index_add_star (index_add_star r) = index_add_star r.
Proof.
  unfold index_add_star. simpl. f_equal.
  rewrite (assoc_L (∪)), (idemp_L (∪)). reflexivity.
Qed.

Lemma index_add_star_commit (r : Repo) (msg : string) (a c : Actor) :
  index_add_star (index_commit (index_add_star r) msg a c)
  = index_commit (index_add_star r) msg a c.
Proof.
  unfold index_commit, index_add_star. simpl. f_equal.
  rewrite (assoc_L (∪)), (idemp_L (∪)). reflexivity.
Qed.

(** [_commit] with nothing to commit: stage, log, succeed. *)
Lemma commit_nothing (env : Env) (self : Provider) (r : Repo) :
  repo self = Some r → nothing_to_commit (index_add_star r) →
  _commit env self
  = (Ret true,
     add_event (EvLog INFO "Nothing to commit!")
       (set_repo (Some (index_add_star r)) self)).
Proof.
  intros Hr Hclean. unfold _commit, bind, gets, modify, log, emit, ret.
  rewrite Hr. cbv beta iota zeta. unfold nothing_to_commit in Hclean.
  destruct (commits (index_add_star r)) as [|c l]; [contradiction|].
  rewrite (bool_decide_eq_true_2 _ Hclean). reflexivity.
Qed.

(** [_commit] with something to commit: stage, commit, push. *)
Lemma commit_something (env : Env) (self : Provider) (r : Repo) :
  repo self = Some r → ¬ nothing_to_commit (index_add_star r) →
  _commit env self
  = _push env (push_kwargs self)
      (add_event (EvLog INFO "Committed")
         (set_repo
            (Some (index_commit (index_add_star r) (commit_message self)
                     (commit_author self) (commit_author self)))
            self)).
Proof.
  intros Hr Hdirty.
  unfold _commit, bind, gets, modify, log, emit, ret, _get_provider_option.
  rewrite Hr. cbv beta iota zeta. unfold nothing_to_commit in Hdirty.
  assert (match commits (index_add_star r) with
          | [] => false
          | head_commit :: _ =>
              bool_decide (index_diff (index_add_star r) head_commit = ∅)
          end = false) as ->.
  { destruct (commits (index_add_star r)); [reflexivity|].
    apply bool_decide_eq_false_2, Hdirty. }
  unfold push_kwargs, commit_message, commit_author. simpl.
  destruct (options self !! "git_message"), (options self !! "git_push_branch");
    reflexivity.
Qed.

Lemma commit_no_repo (env : Env) (self : Provider) :
  repo self = None → _commit env self = (Raise AttributeError, self).
Proof. intros Hr. unfold _commit, bind, gets. rewrite Hr. reflexivity. Qed.

End CommitFacts.

(** * The Git provider: the mutating operations *)

Section RecordMutator.
Import PyStr GitProvider Session.

Lemma then_commit_result (env : Env) (mutation : Provider → bool * Provider)
    (self self1 self2 : Provider) (b : bool) (oc : outcome bool) :
  mutation self = (b, self1) → _commit env self1 = (oc, self2) →
  (∀ c, oc = Ret c → (then_commit env mutation self).1 = Ret (b && c))
  ∧ (b = false → then_commit env mutation self = (Ret false, self1))
  ∧ (b = true → then_commit env mutation self = (oc, self2)).
Proof.
  intros Hm Hc. unfold then_commit, bind. rewrite Hm.
  destruct b; cbv beta iota.
  - rewrite Hc. split; [intros c ->; reflexivity|]. split; [discriminate | reflexivity].
  - split; [intros c _; reflexivity|]. split; [reflexivity | discriminate].
Qed.

Lemma then_commit_true (env : Env) (mutation : Provider → bool * Provider)
    (self self1 : Provider) :
  mutation self = (true, self1) →
  then_commit env mutation self = _commit env self1.
Proof. intros Hm. unfold then_commit, bind. rewrite Hm. reflexivity. Qed.

(** The state of the repository after two [_commit] calls in a row. *)
Lemma commit_settles (env : Env) (self : Provider) (r : Repo) :
  repo self = Some r →
  ∃ r1, repo (_commit env self).2 = Some r1
        ∧ nothing_to_commit (index_add_star r1)
        ∧ index_add_star r1 = r1
        ∧ (nothing_to_commit (index_add_star r) → commits r1 = commits r)
        ∧ (¬ nothing_to_commit (index_add_star r) →
             commits r1 = mkCommit (index (index_add_star r)) (commit_message self)
                            (commit_author self) (commit_author self)
                          :: commits r).
Proof.
  intros Hr. destruct (decide (nothing_to_commit (index_add_star r))) as [Hclean|Hdirty].
  - rewrite (commit_nothing env self r Hr Hclean). exists (index_add_star r).
    rewrite index_add_star_idemp. repeat split; try done.
  - rewrite (commit_something env self r Hr Hdirty), push_repo.
    eexists. split; [reflexivity|].
    rewrite index_add_star_commit. repeat split; try done.
    unfold nothing_to_commit. simpl. apply index_diff_committed.
Qed.

End RecordMutator.

Section RecordMutatorClaims.
Import PyStr GitProvider Session.

Variable localzone_create_record :
  string → string → string → Provider → bool * Provider.
Variable localzone_update_record :
  option string → string → string → string → Provider → bool * Provider.
Variable localzone_delete_record :
  option string → option string → option string → option string →
  Provider → bool * Provider.

(** C1: for each of create, update and delete, the result is the
    conjunction of the success of the inherited mutation and of the
    commit that follows it; when the mutation reports failure the
    operation returns with the state the mutation left, no commit having
    been attempted. *)
Theorem mutation_result_is_conjunction (env : Env) (self self1 self2 : Provider)
    (b : bool) (oc : outcome bool) :
  _commit env self1 = (oc, self2) →
  (∀ rtype name content,
     localzone_create_record rtype name content self = (b, self1) →
     let res := _create_record localzone_create_record env rtype name content self in
     (∀ c, oc = Ret c → res.1 = Ret (b && c))
     ∧ (b = false → res = (Ret false, self1))
     ∧ (b = true → res = (oc, self2)))
  ∧ (∀ identifier rtype name content,
     localzone_update_record identifier rtype name content self = (b, self1) →
     let res := _update_record localzone_update_record env identifier rtype name content self in
     (∀ c, oc = Ret c → res.1 = Ret (b && c))
     ∧ (b = false → res = (Ret false, self1))
     ∧ (b = true → res = (oc, self2)))
  ∧ (∀ identifier rtype name content,
     localzone_delete_record identifier rtype name content self = (b, self1) →
     let res := _delete_record localzone_delete_record env identifier rtype name content self in
     (∀ c, oc = Ret c → res.1 = Ret (b && c))
     ∧ (b = false → res = (Ret false, self1))
     ∧ (b = true → res = (oc, self2))).
Proof.
  intros Hc. repeat split; intros;
    eapply (then_commit_result env _ self self1 self2 b oc); eassumption.
Qed.

(** C2, as amended: with a prior commit and an empty staged diff,
    [_commit] returns [True], creates no commit and pushes nothing.  Of
    two calls in a row the second always is such a call; the head
    advances once when the first call had something to commit, and not
    at all when it had nothing. *)
Theorem commit_twice_advances_at_most_once (env1 env2 : Env)
    (self : Provider) (r : Repo) :
  repo self = Some r →
  let first := _commit env1 self in
  let second := _commit env2 first.2 in
  (nothing_to_commit (index_add_star r) →
     first.1 = Ret true ∧ history first.2 = history self
     ∧ count is_push first.2 = count is_push self)
  ∧ second.1 = Ret true
  ∧ history second.2 = history first.2
  ∧ count is_push second.2 = count is_push first.2
  ∧ (nothing_to_commit (index_add_star r) → history second.2 = history self)
  ∧ (¬ nothing_to_commit (index_add_star r) →
       ∃ c, history second.2 = c :: history self).
Proof.
  intros Hr first second.
  destruct (commit_settles env1 self r Hr) as (r1 & Hr1 & Hclean1 & Hid1 & Hsame & Hnew).
  fold first in Hr1.
  assert (second = (Ret true, add_event (EvLog INFO "Nothing to commit!")
                                (set_repo (Some r1) first.2))) as Hsecond.
  { subst second. rewrite (commit_nothing env2 _ r1 Hr1 Hclean1), Hid1. reflexivity. }
  assert (history first.2 = commits r1) as Hh1 by (unfold history; rewrite Hr1; reflexivity).
  assert (history self = commits r) as Hh by (unfold history; rewrite Hr; reflexivity).
  assert (history second.2 = commits r1) as Hh2 by (rewrite Hsecond; reflexivity).
  split; [|split; [|split; [|split; [|split]]]].
  - intros Hclean. subst first. rewrite (commit_nothing env1 self r Hr Hclean).
    split; [reflexivity|]. split.
    + unfold history. simpl. rewrite Hr. reflexivity.
    + unfold count. simpl. rewrite List.filter_app. simpl. rewrite app_nil_r. reflexivity.
  - rewrite Hsecond. reflexivity.
  - congruence.
  - rewrite Hsecond. unfold count. simpl. rewrite List.filter_app. simpl.
    rewrite app_nil_r. reflexivity.
  - intros Hclean. rewrite Hh2, Hh. apply Hsame, Hclean.
  - intros Hdirty. rewrite Hh2, Hh, (Hnew Hdirty). eauto.
Qed.


End RecordMutatorClaims.

Section RecordMutatorExamples.
Import PyStr GitProvider Session Examples.

Lemma ready_has_repo : repo ready = Some ready_repo.
Proof. vm_compute. reflexivity. Qed.

Lemma ready_is_clean : nothing_to_commit (index_add_star ready_repo).
Proof. apply (bool_decide_unpack _). vm_compute. reflexivity. Qed.

Lemma edited_is_dirty : ¬ nothing_to_commit (index_add_star edited_repo).
Proof. apply (proj1 (bool_decide_eq_false _)). vm_compute. reflexivity. Qed.


Lemma mutation_result_is_conjunction_witness :
  _create_record refuse_create (upstream [fast_forward]) "A" "www" "192.0.2.9" ready
  = (Ret false, ready).
Proof.
  pose proof
    (mutation_result_is_conjunction refuse_create refuse_update refuse_delete
       (upstream [fast_forward]) ready ready
       (_commit (upstream [fast_forward]) ready).2 false
       (_commit (upstream [fast_forward]) ready).1
       (surjective_pairing _)) as (Hcreate & _ & _).
  destruct (Hcreate "A" "www" "192.0.2.9" eq_refl) as (_ & Hfalse & _).
  exact (Hfalse eq_refl).
Defined.

Lemma commit_twice_advances_at_most_once_witness :
  let env := upstream [fast_forward] in
  (_commit env (_commit env ready).2).1 = Ret true
  ∧ history (_commit env (_commit env ready).2).2 = history ready
  ∧ ∃ c, history (_commit env (_commit env edited).2).2 = c :: history edited.
Proof.
  intros env.
  destruct (commit_twice_advances_at_most_once env env ready ready_repo
              ready_has_repo) as (_ & Hret & _ & _ & Hclean & _).
  destruct (commit_twice_advances_at_most_once env env edited edited_repo
              eq_refl) as (_ & _ & _ & _ & _ & Hdirty).
  split; [exact Hret|]. split; [exact (Hclean ready_is_clean)|].
  exact (Hdirty edited_is_dirty).
Defined.

(** C2 as stated fails on a session with nothing to commit: two calls in
    a row both return [True] and the head does not advance. *)
Lemma commit_twice_on_clean_session :
  let env := upstream [fast_forward] in
  let first := _commit env ready in
  let second := _commit env first.2 in
  repo ready = Some ready_repo
  ∧ head_is_valid ready_repo = true
  ∧ nothing_to_commit (index_add_star ready_repo)
  ∧ first.1 = Ret true ∧ second.1 = Ret true
  ∧ history second.2 = history ready
  ∧ List.length (history second.2) ≠ S (List.length (history ready)).
Proof.
  intros env first second.
  split; [exact ready_has_repo|]. split; [reflexivity|].
  split; [exact ready_is_clean|].
  assert (first.1 = Ret true ∧ second.1 = Ret true
          ∧ history second.2 = history ready) as (H1 & H2 & H3)
    by (vm_compute; repeat split).
  repeat split; try assumption. rewrite H3. lia.
Qed.

(** C3 fails on the code: [_push] receives the configured push branch and
    drops it.  The one request it makes is [Remote.push()] without a
    refspec, also in a session pulled from [main] whose push branch is
    [release]. *)
Theorem push_branch_is_not_used :
  (∀ env kwargs self, ∃ logged,
      trace (_push env kwargs self).2 = trace self ++ EvPush None ∅ :: logged
      ∧ Forall (λ e, is_push e = false) logged)
  ∧ options edited !! "git_branch" = Some "main"
  ∧ options edited !! "git_push_branch" = Some "release"
  ∧ let res := _commit (upstream [fast_forward]) edited in
    res.1 = Ret true
    ∧ (∃ c, history res.2 = c :: history edited)
    ∧ List.filter is_push (trace res.2) = [EvPush None ∅].
Proof.
  split; [exact push_trace|]. vm_compute. repeat split. eexists. reflexivity.
Qed.


End RecordMutatorExamples.

(** * The Git provider: authentication *)

Section AuthenticateFacts.
Import PyStr GitProvider Session.

Ltac fields :=
  cbn [repo temp_dir filename options domain trace domain_id
       set_repo set_filename set_temp_dir set_domain_id add_event
       fst snd mbind option_bind fmap option_fmap option_map default] in *.

Ltac auth_simpl cwd :=
  repeat (cbv beta iota zeta; fields; rewrite ?(zone_filename_resolve cwd)).

(** What one call of [_authenticate] does to the session. *)
Lemma authenticate_effect (cwd : string) (env : Env) (self : Provider) :
  let res := _authenticate cwd env self in
  options res.2 = options self ∧ domain res.2 = domain self
  ∧ temp_dir res.2 = Some (session_dir env self)
  ∧ filename res.2 = match temp_dir self with
                     | None => Some (zone_path env self)
                     | Some _ => filename self
                     end
  ∧ repo res.2 = repo_after env self
  ∧ (∀ e, repo self = None → clone_reply env self = Raise e →
       res.1 = Raise (if decide (e = GitCommandError)
                      then AuthenticationError else e))
  ∧ (∀ r, repo res.2 = Some r →
       res.1 = match filename res.2 with
               | Some path =>
                   match read_file r path with
                   | None => Raise AuthenticationError
                   | Some _ => Ret tt
                   end
               | None => Raise TypeError
               end)
  ∧ ∃ new, trace res.2 = trace self ++ new
      ∧ List.filter is_temporary_directory new
        = match temp_dir self with
          | None => [EvTemporaryDirectory "dns-lexicon-git-" (mkdtemp env)]
          | Some _ => []
          end
      ∧ List.filter is_zone_filename_call new
        = match temp_dir self with
          | None => [EvCall "_zone_filename"]
          | Some _ => []
          end
      ∧ List.filter is_clone new
        = match repo self with
          | None => [EvClone (options self !! "git_repo")
                       (session_dir env self) (clone_kwargs self)]
          | Some _ => []
          end
      ∧ Forall opened_read_only new.
Proof.
  cbv beta iota zeta delta
    [_authenticate _get_provider_option _clone log emit bind gets modify
     ret raise try_].
  unfold repo_after, clone_reply, session_dir, clone_kwargs, zone_path.
  destruct (temp_dir self) as [d|] eqn:Htd; auth_simpl cwd;
    destruct (repo self) as [r|] eqn:Hr; auth_simpl cwd;
    rewrite ?Htd; auth_simpl cwd.
  all: try (destruct (clone_from env _ _ _) as [[h g]|e] eqn:Hclone;
            [|destruct e]; auth_simpl cwd).
  all: try (destruct (filename self) as [path|] eqn:Hf; auth_simpl cwd).
  all: rewrite ?Hr; auth_simpl cwd.
  all: try (match goal with
            | |- context [read_file ?r ?p] =>
                destruct (read_file r p) eqn:Hread; auth_simpl cwd
            end).
  all: rewrite ?Htd, ?Hr, ?Hf; auth_simpl cwd.
  all: repeat (split; [reflexivity|]).
  all: (split; [intros e' He1 He2; try discriminate;
                try (injection He2 as <-); reflexivity|]).
  all: (split; [intros r' Hr'; try discriminate;
                try (injection Hr' as <-); rewrite ?Hread; reflexivity|]).
  all: rewrite <- ?app_assoc; eexists;
    (split; [first [reflexivity | symmetry; apply app_nil_r]|]).
  all: repeat (split; [reflexivity|]).
  all: repeat constructor.
Qed.

(** A call that returned has found a clone and read the zone file. *)
Lemma authenticate_returned (cwd : string) (env : Env) (self : Provider) :
  let res := _authenticate cwd env self in
  res.1 = Ret tt →
  ∃ r path content, repo res.2 = Some r ∧ filename res.2 = Some path
                    ∧ read_file r path = Some content.
Proof.
  intros res Hret.
  destruct (authenticate_effect cwd env self)
    as (_ & _ & _ & _ & Hrepo & Hfail & Hcheck & _).
  fold res in Hrepo, Hfail, Hcheck.
  destruct (repo res.2) as [r|] eqn:Hr.
  - specialize (Hcheck r eq_refl). rewrite Hret in Hcheck.
    destruct (filename res.2) as [path|]; [|discriminate].
    destruct (read_file r path) as [content|] eqn:Hread; [|discriminate].
    exists r, path, content. auto.
  - exfalso. unfold repo_after in Hrepo.
    destruct (repo self); [discriminate|].
    destruct (clone_reply env self) as [[h g]|e] eqn:He; [discriminate|].
    rewrite (Hfail e eq_refl eq_refl) in Hret. discriminate.
Qed.





(** Sessions stay well formed: a new instance is, and every call leaves
    the session so. *)
Lemma init_well_formed (base : Provider) : well_formed (__init__ base).
Proof. reflexivity. Qed.



End AuthenticateFacts.

Section AuthenticateClaims.
Import PyStr GitProvider Session.

Lemma count_app (p : Event → bool) (self self' : Provider) (new : list Event) :
  trace self' = trace self ++ new →
  count p self' = count p self + List.length (List.filter p new).
Proof.
  intros H. unfold count. rewrite H, List.filter_app, List.length_app. reflexivity.
Qed.


(** Calls on a session that has its directory keep the directory and the
    zone-file path, and neither create a directory nor compute the path. *)
Lemma authenticate_all_keeps_directory (cwd : string) (envs : list Env)
    (self : Provider) (d : string) :
  temp_dir self = Some d →
  let final := authenticate_all cwd envs self in
  temp_dir final = Some d ∧ filename final = filename self
  ∧ count is_temporary_directory final = count is_temporary_directory self
  ∧ count is_zone_filename_call final = count is_zone_filename_call self.
Proof.
  revert self. induction envs as [|env envs IH]; intros self Htd; [simpl; auto|].
  destruct (authenticate_effect cwd env self)
    as (_ & _ & Htd' & Hf & _ & _ & _ & new & Htrace & Htmp & Hzone & _).
  unfold session_dir in Htd'. rewrite Htd in Htd', Hf, Htmp, Hzone. simpl in Htd'.
  destruct (IH _ Htd') as (H1 & H2 & H3 & H4).
  change (authenticate_all cwd (env :: envs) self)
    with (authenticate_all cwd envs (_authenticate cwd env self).2).
  cbv zeta. rewrite H1, H2, H3, H4, Hf.
  rewrite (count_app _ _ _ _ Htrace), (count_app _ _ _ _ Htrace), Htmp, Hzone.
  simpl. auto with lia.
Qed.

(** Calls on a session that has its clone keep the clone and attempt no
    other. *)
Lemma authenticate_all_keeps_clone (cwd : string) (envs : list Env)
    (self : Provider) (r : Repo) :
  repo self = Some r →
  let final := authenticate_all cwd envs self in
  repo final = Some r ∧ count is_clone final = count is_clone self.
Proof.
  revert self. induction envs as [|env envs IH]; intros self Hr; [simpl; auto|].
  destruct (authenticate_effect cwd env self)
    as (_ & _ & _ & _ & Hr' & _ & _ & new & Htrace & _ & _ & Hclone & _).
  unfold repo_after in Hr'. rewrite Hr in Hr', Hclone.
  destruct (IH _ Hr') as (H1 & H2).
  change (authenticate_all cwd (env :: envs) self)
    with (authenticate_all cwd envs (_authenticate cwd env self).2).
  cbv zeta. rewrite H1, H2, (count_app _ _ _ _ Htrace), Hclone. simpl. auto with lia.
Qed.

(** C8, as amended: over every sequence of [_authenticate] calls on a new
    instance, the temporary directory is created by the first call only
    and the zone-file path is computed once, by that call, from the path
    option and the domain; once a call has left the session with a clone,
    every later call keeps that clone and attempts no other. *)
Theorem authenticate_reuses_the_session (cwd : string) (base : Provider)
    (env : Env) (envs : list Env) :
  let self := __init__ base in
  let final := authenticate_all cwd (env :: envs) self in
  temp_dir final = Some (mkdtemp env)
  ∧ count is_temporary_directory final = count is_temporary_directory self + 1
  ∧ count is_zone_filename_call final = count is_zone_filename_call self + 1
  ∧ (∃ zone, _zone_filename cwd self = Ret zone
       ∧ zone = PathResolver.resolve (options base !! "git_path") (domain base)
       ∧ filename final = Some (posixpath.join (mkdtemp env) [zone]))
  ∧ (∀ more, is_Some (repo final) →
       let later := authenticate_all cwd more final in
       repo later = repo final ∧ count is_clone later = count is_clone final).
Proof.
  intros self final.
  destruct (authenticate_effect cwd env self)
    as (_ & _ & Htd' & Hf & _ & _ & _ & new & Htrace & Htmp & Hzone & _).
  simpl in Htd', Hf, Htmp, Hzone, Htrace.
  destruct (authenticate_all_keeps_directory cwd envs _ _ Htd') as (H1 & H2 & H3 & H4).
  change (authenticate_all cwd envs (_authenticate cwd env self).2)
    with final in H1, H2, H3, H4.
  rewrite (count_app _ self _ _ Htrace), Htmp in H3.
  rewrite (count_app _ self _ _ Htrace), Hzone in H4.
  split; [exact H1|]. split; [exact H3|]. split; [exact H4|]. split.
  - eexists. split; [apply zone_filename_resolve|]. split; [reflexivity|].
    rewrite H2, Hf. reflexivity.
  - intros more [r Hr]. rewrite Hr.
    apply (authenticate_all_keeps_clone cwd more final r Hr).
Qed.

End AuthenticateClaims.

Section AuthenticateExamples.
Import PyStr GitProvider Session Examples.




(** The file that is opened is looked for in the directory of the clone,
    which also holds the git directory. *)
Example zone_file_in_the_git_directory :
  let self := __init__ (BaseProvider_init {["git_path" := ".git"]} "config") in
  _zone_filename "/" self = Ret ".git/config"
  ∧ (_authenticate "/" (upstream []) self).1 = Ret tt.
Proof. split; reflexivity. Qed.

(** C8 as stated fails when the first clone fails: the second call on the
    same instance attempts the clone again, and it is the second call
    that creates the clone. *)
Lemma clone_is_made_by_the_second_call :
  (_authenticate "/" unreachable fresh).1 = Raise AuthenticationError
  ∧ repo (_authenticate "/" unreachable fresh).2 = None
  ∧ count is_clone (authenticate_all "/" [unreachable] fresh) = 1
  ∧ is_Some (repo (authenticate_all "/" [unreachable; upstream [fast_forward]] fresh))
  ∧ count is_clone
      (authenticate_all "/" [unreachable; upstream [fast_forward]] fresh) = 2.
Proof. vm_compute. repeat split. eexists. reflexivity. Qed.

Lemma authenticate_reuses_the_session_witness :
  let final := authenticate_all "/" [upstream [fast_forward]] fresh in
  let later := authenticate_all "/" [unreachable; upstream [rejected]] final in
  repo later = repo final ∧ count is_clone later = count is_clone final.
Proof.
  intros final later.
  destruct (authenticate_reuses_the_session "/"
              (BaseProvider_init config "example.com")
              (upstream [fast_forward]) []) as (_ & _ & _ & _ & Hkeep).
  apply (Hkeep [unreachable; upstream [rejected]]).
  exists ready_repo. vm_compute. reflexivity.
Defined.

End AuthenticateExamples.

(** * The DigitalOcean provider *)

Section ListingLemmas.
Import PyStr DigitalOcean DigitalOceanHttp Api Crud.

Variable lower : string → string.
Variable _full_name : Provider → string → string.

Lemma filter_all {A} (P : A → Prop) `{!∀ x, Decision (P x)} (l : list A) :
  (∀ x, P x) → filter P l = l.
Proof.
  intros HP. induction l as [|x l IH]; [reflexivity|].
  rewrite filter_cons, decide_True by apply HP. f_equal. exact IH.
Qed.

Lemma cond_filter {A} (b : bool) (P : A → Prop) `{!∀ x, Decision (P x)}
    (l : list A) :
  (if b then filter P l else l) = filter (λ x, b = true → P x) l.
Proof.
  destruct b.
  - apply list_filter_iff. intros x. split; auto.
  - symmetry. apply filter_all. discriminate.
Qed.

Lemma posts_of_gets (urls : list string) :
  List.filter is_post (map GET urls) = [].
Proof. induction urls as [|url urls IH]; [reflexivity | exact IH]. Qed.

(** Every page is served exactly when no page makes the request raise. *)
Lemma responsive_page_error (reply : Response) :
  responsive reply = true ↔ page_error reply = None.
Proof.
  induction reply as [| |recs|recs next reply' IH]; simpl;
    [split; discriminate | split; discriminate | tauto | exact IH].
Qed.

(** The loop over the pages: it fetches every page that is served, in
    order, and raises at the first that is not. *)
Lemma fetch_pages_all (reply : Response) (url : string)
    (acc : list Record_) (self : Provider) :
  responsive reply = true →
  fetch_pages reply url acc self
  = (Ret (acc ++ served reply self),
     mkProvider (domain self) (domain_id self) (api_endpoint self)
       (requests self ++ map GET (url :: links reply))).
Proof.
  revert url acc self.
  induction reply as [| |recs|recs next reply' IH]; intros url acc self Hok;
    [discriminate|discriminate| |];
    cbn [fetch_pages]; unfold bind, modify, raise, ret, gets, id;
    cbv beta iota zeta.
  - reflexivity.
  - rewrite IH by exact Hok. unfold served.
    cbn [all_records links map sent requests domain domain_id api_endpoint].
    rewrite map_app, <- !app_assoc. reflexivity.
Qed.

Lemma fetch_pages_fails (reply : Response) (url : string)
    (acc : list Record_) (self : Provider) (e : exn) :
  page_error reply = Some e →
  (fetch_pages reply url acc self).1 = Raise e.
Proof.
  revert url acc self.
  induction reply as [| |recs|recs next reply' IH]; intros url acc self Hbad;
    simpl in Hbad;
    [injection Hbad as <-; reflexivity | injection Hbad as <-; reflexivity
    | discriminate |].
  cbn [fetch_pages]. unfold bind, modify, raise, ret, gets, id.
  cbv beta iota zeta. apply IH, Hbad.
Qed.

(** The pages are fetched with [GET] requests only. *)
Lemma fetch_pages_effect (reply : Response) (next : string)
    (records : list Record_) (self : Provider) :
  let res := fetch_pages reply next records self in
  domain res.2 = domain self ∧ domain_id res.2 = domain_id self
  ∧ (∃ gets, requests res.2 = requests self ++ gets
             ∧ List.filter is_post gets = []).
Proof.
  revert next records self.
  induction reply as [| |recs|recs next' reply' IH]; intros next records self;
    cbn [fetch_pages]; unfold bind, modify, raise, ret, gets, id;
    cbv beta iota zeta.
  - simpl. repeat split. exists [GET next]. split; reflexivity.
  - simpl. repeat split. exists [GET next]. split; reflexivity.
  - simpl. repeat split. exists [GET next]. split; reflexivity.
  - destruct (IH next' (records ++ map (processed_record (sent (GET next) self)) recs)
                (sent (GET next) self))
      as (Hd & Hi & (gets & Hreq & Hposts)).
    cbv zeta in *. simpl in Hd, Hi, Hreq.
    split; [exact Hd|]. split; [exact Hi|].
    exists (GET next :: gets). rewrite Hreq, <- app_assoc. split; [reflexivity|].
    simpl. exact Hposts.
Qed.

Lemma list_records_effect (env : Env) (type name content : option string)
    (self : Provider) :
  let res := list_records lower _full_name env type name content self in
  domain res.2 = domain self ∧ domain_id res.2 = domain_id self
  ∧ (∃ gets, requests res.2 = requests self ++ gets
             ∧ List.filter is_post gets = []).
Proof.
  unfold list_records, bind, gets, ret. cbv beta iota zeta.
  destruct (fetch_pages_effect (get_reply env) (records_url self) [] self)
    as (Hd & Hi & Hreq). cbv zeta in *.
  destruct (fetch_pages (get_reply env) (records_url self) [] self) as [[l|e] self'];
    simpl in *; auto.
Qed.

(** [list_records] returns the served records that pass the filters, and
    raises what the first page that is not served makes it raise. *)
Lemma list_records_filtered (env : Env) (type name content : option string)
    (self : Provider) :
  responsive (get_reply env) = true →
  list_records lower _full_name env type name content self
  = (Ret (filter
            (passes lower _full_name (listed (get_reply env) self)
               type name content)
            (served (get_reply env) self)),
     listed (get_reply env) self).
Proof.
  intros Hok. unfold list_records, bind, gets, ret. cbv beta iota zeta.
  rewrite (fetch_pages_all _ _ _ _ Hok). cbv beta iota zeta.
  unfold id, listed. f_equal. f_equal. cbn [app].
  set (session := mkProvider _ _ _ _).
  rewrite !cond_filter, !list_filter_filter.
  apply list_filter_iff. intros record. unfold passes. tauto.
Qed.

(** The filters of a call that gives type, name and content. *)
Lemma passes_given (self : Provider) (type name content : string)
    (record : Record_) :
  passes lower _full_name self (Some type) (Some name) (Some content) record
  ↔ (type ≠ "" → rec_type record = type)
    ∧ (name ≠ "" → rec_name record = _full_name self name)
    ∧ (content ≠ "" → lower (rec_content record) = lower content).
Proof.
  unfold passes, truthy. cbn [fmap option_fmap option_map].
  rewrite !negb_true_iff, !String.eqb_neq.
  split; intros (H1 & H2 & H3); repeat split; intros H;
    first [injection (H1 H) as -> | injection (H2 H) as ->
          | injection (H3 H) as -> | f_equal; auto]; reflexivity.
Qed.

Lemma list_records_fails (env : Env) (type name content : option string)
    (self : Provider) (e : exn) :
  page_error (get_reply env) = Some e →
  (list_records lower _full_name env type name content self).1 = Raise e.
Proof.
  intros Hbad. unfold list_records, bind, gets. cbv beta iota zeta.
  pose proof (fetch_pages_fails (get_reply env) (records_url self) [] self e Hbad)
    as Hfail.
  destruct (fetch_pages _ _ _ _) as [[l|e'] s]; simpl in *; congruence.
Qed.

End ListingLemmas.

Section DigitalOceanClaims.
Import PyStr DigitalOcean DigitalOceanHttp Api Crud.

Variable lower : string → string.
Variable _full_name : Provider → string → string.
Variable _relative_name : Provider → string → string.

(** What one call of [create_record] does. *)
Lemma create_record_effect (env : Env) (type name content : string)
    (self : Provider) :
  let res :=
    create_record lower _full_name _relative_name env type name content self in
  let found :=
    list_records lower _full_name env (Some type) (Some name) (Some content)
      self in
  match found.1 with
  | Raise e => res = (Raise e, found.2)
  | Ret (_ :: _) => res = (Ret true, found.2)
  | Ret [] =>
      res = (posted (post_reply env),
             sent (POST (records_url self) (new_record _relative_name found.2 type name content))
               found.2)
  end.
Proof.
  cbv zeta. unfold create_record, bind.
  destruct (list_records_effect lower _full_name env (Some type) (Some name) (Some content) self)
    as (_ & Hi & _). cbv zeta in Hi.
  destruct (list_records lower _full_name env (Some type) (Some name)
              (Some content) self)
    as [[l|e] self']; simpl in *; [|reflexivity].
  destruct l as [|x l]; simpl; [|reflexivity].
  unfold gets, _post, bind, modify, ret, raise, new_record, records_url, posted.
  cbv beta iota zeta. rewrite Hi.
  destruct (String.eqb type "CNAME"), (post_reply env); reflexivity.
Qed.



(** C9: [create_record] never returns [False]: whenever it returns, it
    returns [True], and it returns unless a request raises.  When the
    API serves the collection and a record of it has the type, has the
    name that with the domain makes the full name, and has a content
    that [str.lower] takes to the same text as the content given, it
    returns [True] and sends no creation request.  When the API serves the collection
    and no served record is such a duplicate, it sends exactly one
    creation request and returns [True] if the API answers it with
    success and a JSON body.  When a page of the collection is not
    served, it raises what the page made the request raise, and sends no
    creation request. *)
Theorem create_record_returns_True (env : Env) (type name content : string)
    (self : Provider) :
  let res :=
    create_record lower _full_name _relative_name env type name content self in
  let duplicate (record : ApiRecord) :=
    record ∈ all_records (get_reply env)
    ∧ (type ≠ "" → api_type record = type)
    ∧ (name ≠ "" →
         api_name record +:+ "." +:+ default "None" (domain_id self)
         = _full_name (listed (get_reply env) self) name)
    ∧ (content ≠ "" → lower (api_data record) = lower content) in
  let posts (s : Provider) := List.filter is_post (requests s) in
  res.1 ≠ Ret false
  ∧ (responsive (get_reply env) = true → (∃ record, duplicate record) →
       res.1 = Ret true ∧ posts res.2 = posts self)
  ∧ (responsive (get_reply env) = true → (∀ record, ¬ duplicate record) →
       posts res.2
       = posts self
         ++ [POST (records_url self)
               (new_record _relative_name (listed (get_reply env) self)
                  type name content)]
       ∧ (post_reply env = Parsed → res.1 = Ret true)
       ∧ (post_reply env = Refused → res.1 = Raise HTTPError)
       ∧ (post_reply env = Unparsable → res.1 = Raise JSONDecodeError))
  ∧ (∀ e, page_error (get_reply env) = Some e →
       res.1 = Raise e ∧ posts res.2 = posts self).
Proof.
  intros res duplicate posts. subst duplicate posts. cbv beta.
  pose proof (create_record_effect env type name content self) as Heff.
  cbv zeta in Heff. fold res in Heff.
  split; [|split; [|split]].
  - destruct (list_records _ _ _ _ _ _ _).1 as [[|x l]|e]; rewrite Heff;
      simpl; [destruct (post_reply env) | |]; discriminate.
  - intros Hok (record & Hin & Hpass).
    rewrite (list_records_filtered lower _full_name env _ _ _ self Hok) in Heff.
    cbn [fst snd] in Heff.
    destruct (filter _ (served (get_reply env) self)) as [|x l] eqn:Hfilter.
    + exfalso.
      assert (processed_record self record
              ∈ filter
                  (passes lower _full_name (listed (get_reply env) self)
                     (Some type) (Some name) (Some content))
                  (served (get_reply env) self)) as Hmem.
      { apply list_elem_of_filter. split.
        - apply passes_given. exact Hpass.
        - apply list_elem_of_fmap. exists record. auto. }
      rewrite Hfilter in Hmem. apply elem_of_nil in Hmem. exact Hmem.
    + rewrite Heff. split; [reflexivity|]. unfold listed. cbn [snd requests].
      rewrite List.filter_app, posts_of_gets. apply app_nil_r.
  - intros Hok Hnone.
    rewrite (list_records_filtered lower _full_name env _ _ _ self Hok) in Heff.
    cbn [fst snd] in Heff.
    destruct (filter _ (served (get_reply env) self)) as [|x l] eqn:Hfilter.
    + rewrite Heff. cbn [fst snd]. split.
      * unfold listed, sent. cbn [requests].
        rewrite !List.filter_app, posts_of_gets, app_nil_r. reflexivity.
      * repeat split; intros ->; reflexivity.
    + exfalso.
      assert (x ∈ x :: l) as Hx by apply list_elem_of_here.
      rewrite <- Hfilter in Hx. apply list_elem_of_filter in Hx.
      rewrite passes_given in Hx. destruct Hx as [Hpass Hin].
      apply list_elem_of_fmap in Hin as (record & -> & Hin).
      apply (Hnone record). split; assumption.
  - intros e Hbad.
    pose proof (list_records_fails lower _full_name env (Some type) (Some name) (Some content)
                  self e Hbad) as Hfail.
    destruct (list_records_effect lower _full_name env (Some type) (Some name) (Some content) self)
      as (_ & _ & (gets & Hreq & Hposts)). cbv zeta in Hreq.
    rewrite Hfail in Heff. rewrite Heff. split; [reflexivity|].
    cbn [snd]. rewrite Hreq, List.filter_app, Hposts. apply app_nil_r.
Qed.


End DigitalOceanClaims.

Section DigitalOceanExamples.
Import PyStr DigitalOcean DigitalOceanHttp Api Crud.

Example create_cname_twice :
  (create_record ascii_lower as_given as_given serving "CNAME" "docs.example.com"
     "EXAMPLE.org." authenticated).1 = Ret true
  ∧ List.filter is_post
      (requests (create_record ascii_lower as_given as_given serving "CNAME"
                   "docs.example.com" "EXAMPLE.org." authenticated).2) = []
  ∧ List.filter is_post
      (requests (create_record ascii_lower as_given as_given serving "CNAME"
                   "mail.example.com" "mx.example.org..." authenticated).2)
    = [POST "/domains/example.com/records"
         (mkNewRecord "CNAME" "mail.example.com" "mx.example.org.")].
Proof. vm_compute. repeat split. Qed.

Lemma create_record_returns_True_witness :
  let res :=
    create_record ascii_lower as_given as_given serving "CNAME"
      "docs.example.com" "EXAMPLE.org." authenticated in
  res.1 = Ret true
  ∧ List.filter is_post (requests res.2)
    = List.filter is_post (requests authenticated).
Proof.
  destruct (create_record_returns_True ascii_lower as_given as_given serving
              "CNAME" "docs.example.com" "EXAMPLE.org." authenticated)
    as (_ & Hduplicate & _).
  apply Hduplicate; [reflexivity|].
  exists (mkApiRecord 2 "CNAME" "docs" "example.org.").
  split; [apply list_elem_of_further, list_elem_of_here|].
  repeat split.
Defined.


End DigitalOceanExamples.

(** * More on the path resolver *)

Section PathResolverMore.
Import PyStr posixpath PathResolver GitProvider.

(** A proper segment between two affixes without separator is a proper
    segment, when the affixes have two characters or more. *)
Lemma Segment_affixes (a d b : string) :
  Segment d → mem sep_char a = false → mem sep_char b = false →
  (2 ≤ String.length a + String.length b)%nat →
  Segment (a +:+ d +:+ b).
Proof.
  intros (Hne & _ & _ & Hd) Ha Hb Hlen.
  assert (3 ≤ String.length (a +:+ d +:+ b))%nat as Hl.
  { rewrite !str_length_app. destruct d; [congruence|]. simpl. lia. }
  repeat split.
  - intros E. rewrite E in Hl. simpl in Hl. lia.
  - intros E. rewrite E in Hl. simpl in Hl. lia.
  - intros E. rewrite E in Hl. simpl in Hl. lia.
  - rewrite !str_mem_app, Ha, Hd, Hb. reflexivity.
Qed.

Lemma collapse_from_sep (acc : list string) (x s : string) :
  mem sep_char x = false →
  foldl collapse_step acc (segments (x +:+ "/" +:+ s))
  = foldl collapse_step (collapse_step acc x) (segments s).
Proof.
  intros Hx. unfold segments.
  change (x +:+ "/" +:+ s) with (x +:+ String sep_char s).
  rewrite (split_app_sep _ _ _ Hx). reflexivity.
Qed.

Lemma collapse_from_last (acc : list string) (x : string) :
  mem sep_char x = false →
  foldl collapse_step acc (segments x) = collapse_step acc x.
Proof. intros Hx. unfold segments. rewrite (split_no_sep _ _ Hx). reflexivity. Qed.

Lemma collapse_step_push (acc : list string) (x : string) :
  Segment x → collapse_step acc x = acc ++ [x].
Proof.
  intros (H1 & H2 & H3 & _). unfold collapse_step.
  rewrite bool_decide_eq_false_2 by (intros [?|?]; contradiction).
  rewrite bool_decide_eq_false_2 by exact H3. reflexivity.
Qed.

Lemma join_plain (t d : string) :
  t ≠ "" → endswith t sep = false → startswith d sep = false →
  join t [d] = t +:+ "/" +:+ d.
Proof.
  intros Ht He Hd. unfold join. simpl. unfold join_step. rewrite Hd, He.
  destruct (String.eqb_spec t ""); [contradiction | reflexivity].
Qed.

(** X1: the resolved path depends on the path option and the domain
    only: not on the working directory of the process, and not on
    anything else in the provider. *)
Theorem zone_filename_depends_on_option_and_domain (cwd1 cwd2 : string)
    (self1 self2 : Provider) :
  options self1 !! "git_path" = options self2 !! "git_path" →
  domain self1 = domain self2 →
  _zone_filename cwd1 self1 = _zone_filename cwd2 self2.
Proof. intros Ho Hd. rewrite !zone_filename_resolve, Ho, Hd. reflexivity. Qed.

(** X2: the resolved path is in normal form: it is ["."], or each of its
    segments is a proper one, neither empty nor [.] nor [..]. *)
Theorem zone_filename_is_normalised (cwd : string) (self : Provider) :
  ∃ path, _zone_filename cwd self = Ret path
          ∧ path ≠ ""
          ∧ (path = "." ∨ Forall Segment (segments path)).
Proof.
  eexists. split; [apply zone_filename_resolve|]. unfold resolve.
  pose proof (collapse_Segment
                (choose (options self !! "git_path") (domain self))) as Hseg.
  destruct (collapse _) as [|a l]; [split; [discriminate | left; reflexivity]|].
  inversion Hseg as [|? ? Ha Hl]; subst. split.
  - apply (join_Segments_nonempty a l Ha).
  - right. unfold render, segments. change "/" with (String sep_char "").
    rewrite split_join;
      [exact Hseg | congruence
       | eapply Forall_impl; [exact Hseg | intros ?; apply Segment_no_sep]].
Qed.

Ltac push_segment :=
  rewrite collapse_step_push by
    (first [assumption | repeat split; (discriminate || reflexivity)]).

(** X3: the expectations of [test_zone_filename], for every domain that
    is a proper segment and not for ["example.com"] alone. *)
Theorem zone_filename_test_cases (cwd : string) (self : Provider)
    (path expect : string) :
  Segment (domain self) →
  options self !! "git_path" = Some path →
  let d := domain self in
  (path, expect) ∈
    [ ("", d); ("foo", "foo/" +:+ d);
      ("{domain}", d); ("db.{domain}", "db." +:+ d);
      ("{domain}.zone", d +:+ ".zone");
      ("foo/db.{domain}.zone", "foo/db." +:+ d +:+ ".zone");
      ("{domain}/db.{domain}.zone", d +:+ "/db." +:+ d +:+ ".zone");
      ("/foo", "foo/" +:+ d); ("./foo", "foo/" +:+ d);
      ("foo/../bar", "bar/" +:+ d); ("../../../foo", "foo/" +:+ d);
      ("foo/../..", d) ] →
  _zone_filename cwd self = Ret expect.
Proof.
  intros Hd Hpath d Hin. rewrite zone_filename_resolve, Hpath. fold d. f_equal.
  pose proof (Segment_no_sep d Hd) as Hsep.
  pose proof (Segment_not_rooted d Hd) as Hroot.
  assert (Segment (d +:+ ".zone")) as Hzone.
  { rewrite <- (str_app_empty_l (d +:+ ".zone")).
    apply Segment_affixes; [exact Hd | reflexivity | reflexivity | simpl; lia]. }
  assert (Segment ("db." +:+ d)) as Hdb.
  { rewrite <- (str_app_empty_r d).
    apply Segment_affixes; [exact Hd | reflexivity | reflexivity | simpl; lia]. }
  assert (Segment ("db." +:+ d +:+ ".zone")) as Hdbzone.
  { apply Segment_affixes; [exact Hd | reflexivity | reflexivity | simpl; lia]. }
  unfold resolve, collapse.
  repeat (apply elem_of_cons in Hin as [[= -> ->] | Hin]);
    [..| apply elem_of_nil in Hin; contradiction].
  - change (choose (Some "") d) with d.
    rewrite collapse_from_last by exact Hsep. push_segment. reflexivity.
  - change (choose (Some "foo") d) with (join "foo" [d]).
    rewrite join_plain by (discriminate || reflexivity || exact Hroot).
    rewrite collapse_from_sep, collapse_from_last by (reflexivity || exact Hsep).
    repeat push_segment. reflexivity.
  - change (choose (Some "{domain}") d) with (d +:+ "").
    rewrite str_app_empty_r, collapse_from_last by exact Hsep.
    push_segment. reflexivity.
  - change (choose (Some "db.{domain}") d) with ("db." +:+ d +:+ "").
    rewrite str_app_empty_r, collapse_from_last
      by (apply Segment_no_sep, Hdb).
    push_segment. reflexivity.
  - change (choose (Some "{domain}.zone") d) with (d +:+ ".zone").
    rewrite collapse_from_last by (apply Segment_no_sep, Hzone).
    push_segment. reflexivity.
  - change (choose (Some "foo/db.{domain}.zone") d)
      with ("foo" +:+ "/" +:+ "db." +:+ d +:+ ".zone").
    rewrite collapse_from_sep by reflexivity.
    rewrite collapse_from_last by (apply Segment_no_sep, Hdbzone).
    repeat push_segment. reflexivity.
  - change (choose (Some "{domain}/db.{domain}.zone") d)
      with (d +:+ "/" +:+ "db." +:+ d +:+ ".zone").
    rewrite collapse_from_sep by exact Hsep.
    rewrite collapse_from_last by (apply Segment_no_sep, Hdbzone).
    repeat push_segment. reflexivity.
  - change (choose (Some "/foo") d) with (join "/foo" [d]).
    rewrite join_plain by (discriminate || reflexivity || exact Hroot).
    change ("/foo" +:+ "/" +:+ d) with ("" +:+ "/" +:+ "foo" +:+ "/" +:+ d).
    rewrite !collapse_from_sep, collapse_from_last by (reflexivity || exact Hsep).
    change (collapse_step [] "") with (@nil string).
    repeat push_segment. reflexivity.
  - change (choose (Some "./foo") d) with (join "./foo" [d]).
    rewrite join_plain by (discriminate || reflexivity || exact Hroot).
    change ("./foo" +:+ "/" +:+ d) with ("." +:+ "/" +:+ "foo" +:+ "/" +:+ d).
    rewrite !collapse_from_sep, collapse_from_last by (reflexivity || exact Hsep).
    change (collapse_step [] ".") with (@nil string).
    repeat push_segment. reflexivity.
  - change (choose (Some "foo/../bar") d) with (join "foo/../bar" [d]).
    rewrite join_plain by (discriminate || reflexivity || exact Hroot).
    change ("foo/../bar" +:+ "/" +:+ d)
      with ("foo" +:+ "/" +:+ ".." +:+ "/" +:+ "bar" +:+ "/" +:+ d).
    rewrite !collapse_from_sep, collapse_from_last by (reflexivity || exact Hsep).
    change (collapse_step (collapse_step [] "foo") "..") with (@nil string).
    repeat push_segment. reflexivity.
  - change (choose (Some "../../../foo") d) with (join "../../../foo" [d]).
    rewrite join_plain by (discriminate || reflexivity || exact Hroot).
    change ("../../../foo" +:+ "/" +:+ d)
      with (".." +:+ "/" +:+ ".." +:+ "/" +:+ ".." +:+ "/" +:+ "foo" +:+ "/" +:+ d).
    rewrite !collapse_from_sep, collapse_from_last by (reflexivity || exact Hsep).
    change (collapse_step (collapse_step (collapse_step [] "..") "..") "..")
      with (@nil string).
    repeat push_segment. reflexivity.
  - change (choose (Some "foo/../..") d) with (join "foo/../.." [d]).
    rewrite join_plain by (discriminate || reflexivity || exact Hroot).
    change ("foo/../.." +:+ "/" +:+ d)
      with ("foo" +:+ "/" +:+ ".." +:+ "/" +:+ ".." +:+ "/" +:+ d).
    rewrite !collapse_from_sep, collapse_from_last by (reflexivity || exact Hsep).
    change (collapse_step (collapse_step (collapse_step [] "foo") "..") "..")
      with (@nil string).
    repeat push_segment. reflexivity.
Qed.

End PathResolverMore.

Section PathResolverMoreExamples.
Import PyStr posixpath PathResolver GitProvider Examples.

Lemma zone_filename_depends_on_option_and_domain_witness :
  _zone_filename "/" (BaseProvider_init config "example.com")
  = _zone_filename "/srv/app" fresh.
Proof.
  apply (zone_filename_depends_on_option_and_domain "/" "/srv/app"
           (BaseProvider_init config "example.com") fresh);
    reflexivity.
Defined.

Lemma zone_filename_test_cases_witness :
  _zone_filename "/srv/app"
    (BaseProvider_init {["git_path" := "foo/../bar"]} "example.org")
  = Ret "bar/example.org".
Proof.
  apply (zone_filename_test_cases "/srv/app"
           (BaseProvider_init {["git_path" := "foo/../bar"]} "example.org")
           "foo/../bar" "bar/example.org").
  - repeat split; discriminate.
  - reflexivity.
  - do 9 apply list_elem_of_further. apply list_elem_of_here.
Defined.

End PathResolverMoreExamples.

(** * More on authentication *)

Section AuthenticateMore.
Import PyStr posixpath PathResolver GitProvider Session.

Ltac session_fields :=
  cbn [repo temp_dir filename options domain trace domain_id
       set_repo set_filename set_temp_dir set_domain_id add_event
       fst snd mbind option_bind fmap option_fmap option_map default] in *.

Ltac run_authenticate cwd :=
  repeat (cbv beta iota zeta; session_fields;
          rewrite ?(zone_filename_resolve cwd)).

Lemma authenticate_domain_id (cwd : string) (env : Env) (self : Provider) :
  let res := _authenticate cwd env self in
  domain_id res.2 = match res.1 with
                    | Ret _ => Some (domain self)
                    | Raise _ => domain_id self
                    end.
Proof.
  cbv beta iota zeta delta
    [_authenticate _get_provider_option _clone log emit bind gets modify
     ret raise try_].
  destruct (temp_dir self) as [d|] eqn:Htd; run_authenticate cwd;
    destruct (repo self) as [r|] eqn:Hr; run_authenticate cwd;
    rewrite ?Htd; run_authenticate cwd.
  all: try (destruct (clone_from env _ _ _) as [[h g]|e] eqn:Hclone;
            [|destruct e]; run_authenticate cwd).
  all: try (destruct (filename self) as [path|] eqn:Hf; run_authenticate cwd).
  all: rewrite ?Hr; run_authenticate cwd.
  all: try (match goal with
            | |- context [read_file ?r ?p] =>
                destruct (read_file r p) eqn:Hread; run_authenticate cwd
            end).
  all: reflexivity.
Qed.

(** A call on a session that has its directory, its clone and its zone
    file only opens the file. *)
Lemma authenticate_ready (cwd : string) (env : Env) (self : Provider)
    (d path content : string) (r : Repo) :
  temp_dir self = Some d → repo self = Some r → filename self = Some path →
  read_file r path = Some content →
  _authenticate cwd env self
  = (Ret tt, set_domain_id (Some (domain self))
               (add_event (EvOpen path "rt") self)).
Proof.
  intros Htd Hr Hf Hread.
  cbv beta iota zeta delta
    [_authenticate _get_provider_option _clone log emit bind gets modify
     ret raise try_].
  rewrite Htd. run_authenticate cwd. rewrite Hr. run_authenticate cwd.
  rewrite Hf. run_authenticate cwd. rewrite Hr. run_authenticate cwd.
  rewrite Hread. reflexivity.
Qed.

(** X4: [_authenticate] assigns the domain as [domain_id] exactly when it
    returns; when it raises, [domain_id] is as it was. *)
Theorem authenticate_sets_domain_id (cwd : string) (env : Env)
    (self : Provider) :
  let res := _authenticate cwd env self in
  domain_id res.2 = match res.1 with
                    | Ret _ => Some (domain self)
                    | Raise _ => domain_id self
                    end.
Proof. apply authenticate_domain_id. Qed.

(** X5: after a call that returned, a further call returns too, whatever
    the outside world would answer to a clone, and does nothing but open
    the zone file for reading: every attribute of the session stays. *)
Theorem authenticate_again_only_opens (cwd : string) (env env' : Env)
    (self : Provider) :
  (_authenticate cwd env self).1 = Ret tt →
  let session := (_authenticate cwd env self).2 in
  ∃ path, filename session = Some path
          ∧ _authenticate cwd env' session
            = (Ret tt, add_event (EvOpen path "rt") session).
Proof.
  intros Hret session.
  destruct (authenticate_effect cwd env self) as (_ & Hdom & Htd & _).
  destruct (authenticate_returned cwd env self Hret)
    as (r & path & content & Hr & Hf & Hread).
  pose proof (authenticate_domain_id cwd env self) as Hid.
  cbv zeta in Hid. fold session in Htd, Hid, Hdom, Hr, Hf.
  rewrite Hret in Hid.
  exists path. split; [exact Hf|].
  rewrite (authenticate_ready cwd env' session _ path content r Htd Hr Hf Hread).
  f_equal. rewrite Hdom, <- Hid. destruct session. reflexivity.
Qed.

Lemma startswith_not_rooted_join (tmp zone : string) :
  startswith zone sep = false →
  join tmp [zone]
  = tmp +:+ (if String.eqb tmp "" || endswith tmp sep then "" else "/") +:+ zone.
Proof.
  intros Hz. unfold join. simpl. unfold join_step. rewrite Hz.
  destruct (String.eqb tmp "" || endswith tmp sep); reflexivity.
Qed.

(** X6: the zone-file path a session stores lies in its temporary
    directory: it is the name of the directory, a separator unless the
    name ends with one, and the resolved relative path, whatever the path
    option holds. *)
Theorem zone_file_is_in_the_temporary_directory (cwd : string) (env : Env)
    (self : Provider) :
  temp_dir self = None →
  let tmp := mkdtemp env in
  ∃ zone, _zone_filename cwd self = Ret zone
          ∧ filename (_authenticate cwd env self).2
            = Some (tmp +:+ (if String.eqb tmp "" || endswith tmp sep
                             then "" else "/") +:+ zone).
Proof.
  intros Htd tmp.
  destruct (authenticate_effect cwd env self) as (_ & _ & _ & Hf & _).
  rewrite Htd in Hf. eexists. split; [apply zone_filename_resolve|].
  rewrite Hf. unfold zone_path. f_equal. apply startswith_not_rooted_join.
  apply render_segments, collapse_Segment.
Qed.

(** X7: a call without a clone handle makes one clone request: from the
    URL of the [git_repo] option, into the directory of the session, and
    with [branch] as its only keyword, given when the [git_branch] option
    is set. *)
Theorem clone_follows_the_options (cwd : string) (env : Env)
    (self : Provider) :
  repo self = None →
  ∃ new kwargs,
    trace (_authenticate cwd env self).2 = trace self ++ new
    ∧ List.filter is_clone new
      = [EvClone (options self !! "git_repo") (session_dir env self) kwargs]
    ∧ (∀ key, kwargs !! key
              = if decide (key = "branch") then options self !! "git_branch"
                else None).
Proof.
  intros Hr.
  destruct (authenticate_effect cwd env self)
    as (_ & _ & _ & _ & _ & _ & _ & new & Htrace & _ & _ & Hclone & _).
  rewrite Hr in Hclone. exists new, (clone_kwargs self).
  split; [exact Htrace|]. split; [exact Hclone|].
  intros key. unfold clone_kwargs.
  destruct (options self !! "git_branch") as [b|].
  - rewrite lookup_insert. destruct (decide ("branch" = key)) as [<-|Hne].
    + rewrite decide_True by reflexivity. reflexivity.
    + rewrite decide_False by congruence. apply lookup_empty.
  - rewrite lookup_empty. destruct (decide (key = "branch")); reflexivity.
Qed.

End AuthenticateMore.

Section AuthenticateMoreExamples.
Import PyStr posixpath PathResolver GitProvider Session Examples.

Lemma authenticate_again_only_opens_witness :
  _authenticate "/" unreachable ready
  = (Ret tt,
     add_event (EvOpen "/tmp/dns-lexicon-git-k3/example.com" "rt") ready).
Proof.
  destruct (authenticate_again_only_opens "/" (upstream [fast_forward])
              unreachable fresh) as (path & Hpath & Hagain).
  - vm_compute. reflexivity.
  - vm_compute in Hpath. injection Hpath as <-. exact Hagain.
Defined.

Lemma zone_file_is_in_the_temporary_directory_witness :
  filename (_authenticate "/" unreachable fresh).2
  = Some "/tmp/dns-lexicon-git-k3/example.com".
Proof.
  destruct (zone_file_is_in_the_temporary_directory "/" unreachable fresh
              eq_refl) as (zone & Hzone & Hfile).
  vm_compute in Hzone. injection Hzone as <-. exact Hfile.
Defined.

Lemma clone_follows_the_options_witness :
  ∃ new, trace (_authenticate "/" unreachable fresh).2 = trace fresh ++ new
         ∧ ∃ kwargs,
             List.filter is_clone new
             = [EvClone (Some "https://git.example.org/zones.git")
                  "/tmp/dns-lexicon-git-k3" kwargs]
             ∧ kwargs !! "branch" = Some "main".
Proof.
  destruct (clone_follows_the_options "/" unreachable fresh eq_refl)
    as (new & kwargs & Htrace & Hclone & Hkw).
  exists new. split; [exact Htrace|]. exists kwargs. split; [exact Hclone|].
  exact (Hkw "branch").
Defined.

End AuthenticateMoreExamples.

(** * More on commit and push *)

Section CommitMore.
Import PyStr GitProvider Session.

Variable localzone_create_record :
  string → string → string → Provider → bool * Provider.

(** [_push] touches nothing but the trace. *)
Lemma push_frame (env : Env) (kwargs : gmap string string) (self : Provider) :
  let s := (_push env kwargs self).2 in
  options s = options self ∧ domain s = domain self
  ∧ temp_dir s = temp_dir self ∧ repo s = repo self
  ∧ filename s = filename self ∧ domain_id s = domain_id self.
Proof.
  unfold _push, bind, emit, log, modify, ret, raise. simpl.
  destruct (push_reply env) as [|info rest]; simpl; [auto 10|].
  destruct (Z.eqb _ _); simpl; auto 10.
Qed.

Lemma push_count (env : Env) (kwargs : gmap string string) (self : Provider) :
  count is_push (_push env kwargs self).2 = S (count is_push self).
Proof.
  destruct (push_trace env kwargs self) as (logged & Htrace & Hlogged).
  unfold count. rewrite Htrace, List.filter_app, List.length_app. simpl.
  assert (List.filter is_push logged = []) as ->.
  { clear Htrace. induction Hlogged as [|e l He _ IH]; [reflexivity|].
    simpl. rewrite He. exact IH. }
  simpl. lia.
Qed.

(** X8: a commit that [_commit] creates has the staged index as its
    tree, in which every file of the working copy that the glob matches
    is as in the working copy and every other path is as it was staged;
    its author and committer are the one actor of the [git_name] and
    [git_email] options; its message is the [git_message] option with
    the domain for each ["{domain}"], and without the option it is
    ["Update <domain> (automated commit)"]. *)
Theorem commit_records_the_working_copy (env : Env) (self : Provider)
    (r : Repo) :
  repo self = Some r → ¬ nothing_to_commit (index_add_star r) →
  ∃ c, history (_commit env self).2 = c :: commits r
       ∧ author c = mkActor (options self !! "git_name")
                      (options self !! "git_email")
       ∧ committer c = author c
       ∧ message c
         = match options self !! "git_message" with
           | None => "Update " +:+ domain self +:+ " (automated commit)"
           | Some m =>
               if contains "{domain}" m
               then replace m "{domain}" (domain self) else m
           end
       ∧ (∀ path content,
            worktree r !! path = Some content → matches_star path = true →
            tree c !! path = Some content)
       ∧ (∀ path,
            worktree r !! path = None ∨ matches_star path = false →
            tree c !! path = index r !! path).
Proof.
  intros Hr Hdirty. unfold history.
  rewrite (commit_something env self r Hr Hdirty), push_repo. simpl.
  eexists. split; [reflexivity|]. simpl.
  split; [reflexivity|]. split; [reflexivity|]. split; [|split].
  - unfold commit_message. destruct (options self !! "git_message"); reflexivity.
  - intros path content Hw Hm. apply lookup_union_Some_l.
    apply map_lookup_filter_Some. split; [exact Hw | exact Hm].
  - intros path Hnot. rewrite lookup_union_r; [reflexivity|].
    apply map_lookup_filter_None. destruct Hnot as [Hnone | Hhidden].
    + left. exact Hnone.
    + right. intros content _. simpl. rewrite Hhidden. discriminate.
Qed.

(** X9: [_commit] pushes exactly when it creates a commit: with nothing
    to commit the history and the number of pushes stay, and otherwise
    each grows by one. *)
Theorem commit_pushes_exactly_when_it_commits (env : Env) (self : Provider)
    (r : Repo) :
  repo self = Some r →
  let n := if decide (nothing_to_commit (index_add_star r)) then 0 else 1 in
  let session := (_commit env self).2 in
  List.length (history session) = List.length (commits r) + n
  ∧ count is_push session = count is_push self + n.
Proof.
  intros Hr n session. subst n session. unfold history.
  destruct (decide (nothing_to_commit (index_add_star r))) as [Hclean|Hdirty].
  - rewrite (commit_nothing env self r Hr Hclean). simpl. split; [lia|].
    unfold count. simpl. rewrite List.filter_app. simpl.
    rewrite app_nil_r. lia.
  - rewrite (commit_something env self r Hr Hdirty), push_repo, push_count.
    simpl. split; [lia|]. unfold count. simpl. rewrite List.filter_app. simpl.
    rewrite app_nil_r. lia.
Qed.

(** X10: when [Remote.push] returns an empty list, [_commit] raises
    [IndexError] instead of returning a result, and the commit it
    created stays in the history. *)
Theorem empty_push_result_raises (env : Env) (self : Provider) (r : Repo) :
  repo self = Some r → ¬ nothing_to_commit (index_add_star r) →
  push_reply env = [] →
  (_commit env self).1 = Raise IndexError
  ∧ ∃ c, history (_commit env self).2 = c :: commits r.
Proof.
  intros Hr Hdirty Hreply. unfold history.
  rewrite (commit_something env self r Hr Hdirty), push_repo. simpl.
  split; [|eauto].
  unfold _push, bind, emit, modify, raise. simpl. rewrite Hreply. reflexivity.
Qed.

(** X11: a record operation on a provider that has no clone raises
    [AttributeError] when its mutation succeeded, after the mutation was
    applied: the state is the one the mutation left. *)
Theorem commit_without_a_clone_raises (env : Env) (self self1 : Provider)
    (rtype name content : string) :
  localzone_create_record rtype name content self = (true, self1) →
  repo self1 = None →
  _commit env self1 = (Raise AttributeError, self1)
  ∧ _create_record localzone_create_record env rtype name content self
    = (Raise AttributeError, self1).
Proof.
  intros Hm Hr. pose proof (commit_no_repo env self1 Hr) as Hc.
  split; [exact Hc|].
  change (_create_record localzone_create_record env rtype name content)
    with (then_commit env (localzone_create_record rtype name content)).
  rewrite (then_commit_true _ _ _ _ Hm). exact Hc.
Qed.

(** X12: after [_commit], whatever the push did, the repository has
    nothing to commit: its head commit is the staged index.  The working
    copy and every attribute of the session but the repository are as
    before. *)
Theorem commit_leaves_a_clean_repository (env : Env) (self : Provider)
    (r : Repo) :
  repo self = Some r →
  let session := (_commit env self).2 in
  (∃ r1, repo session = Some r1 ∧ nothing_to_commit r1
         ∧ worktree r1 = worktree r
         ∧ working_tree_dir r1 = working_tree_dir r)
  ∧ options session = options self ∧ domain session = domain self
  ∧ temp_dir session = temp_dir self ∧ filename session = filename self
  ∧ domain_id session = domain_id self.
Proof.
  intros Hr session. subst session.
  destruct (decide (nothing_to_commit (index_add_star r))) as [Hclean|Hdirty].
  - rewrite (commit_nothing env self r Hr Hclean). simpl.
    split; [|auto 10]. eexists. split; [reflexivity|].
    split; [exact Hclean|]. split; reflexivity.
  - rewrite (commit_something env self r Hr Hdirty).
    destruct (push_frame env (push_kwargs self)
                (add_event (EvLog INFO "Committed")
                   (set_repo
                      (Some (index_commit (index_add_star r)
                               (commit_message self) (commit_author self)
                               (commit_author self))) self)))
      as (Ho & Hd & Ht & Hrepo & Hf & Hi).
    cbv zeta in *. rewrite Ho, Hd, Ht, Hrepo, Hf, Hi. simpl.
    split; [|auto 10]. eexists. split; [reflexivity|].
    split; [|split; reflexivity].
    unfold nothing_to_commit. simpl. apply index_diff_committed.
Qed.

(** X13: in a repository without commits [_commit] always creates the
    first commit and pushes, also when nothing is staged. *)
Theorem first_commit_is_always_made (env : Env) (self : Provider) (r : Repo) :
  repo self = Some r → commits r = [] →
  ∃ c, history (_commit env self).2 = [c]
       ∧ tree c = index (index_add_star r)
       ∧ count is_push (_commit env self).2 = S (count is_push self).
Proof.
  intros Hr Hempty.
  assert (¬ nothing_to_commit (index_add_star r)) as Hdirty.
  { unfold nothing_to_commit. simpl. rewrite Hempty. tauto. }
  unfold history.
  rewrite (commit_something env self r Hr Hdirty), push_repo, push_count.
  simpl. rewrite Hempty. eexists. split; [reflexivity|]. split; [reflexivity|].
  unfold count. simpl. rewrite List.filter_app. simpl. rewrite app_nil_r.
  reflexivity.
Qed.

End CommitMore.

Section CommitMoreExamples.
Import PyStr GitProvider Session Examples.

Lemma commit_records_the_working_copy_witness :
  ∃ c, history (_commit (upstream [rejected]) edited).2 = [c; first_commit]
       ∧ message c = "Update example.com (automated commit)"
       ∧ tree c !! "example.com" = Some "@ 3600 IN A 192.0.2.7".
Proof.
  destruct (commit_records_the_working_copy (upstream [rejected]) edited
              edited_repo eq_refl edited_is_dirty)
    as (c & Hh & _ & _ & Hmsg & Htree & _).
  exists c. split; [exact Hh|]. split; [exact Hmsg|].
  apply Htree; reflexivity.
Defined.

Lemma commit_pushes_exactly_when_it_commits_witness :
  count is_push (_commit (upstream [fast_forward]) edited).2
  = count is_push edited + 1.
Proof.
  destruct (commit_pushes_exactly_when_it_commits (upstream [fast_forward])
              edited edited_repo eq_refl) as (_ & Hpush).
  exact Hpush.
Defined.

Lemma empty_push_result_raises_witness :
  (_commit (upstream []) edited).1 = Raise IndexError.
Proof.
  destruct (empty_push_result_raises (upstream []) edited edited_repo
              eq_refl edited_is_dirty eq_refl) as (Hraise & _).
  exact Hraise.
Defined.

Lemma commit_without_a_clone_raises_witness :
  _create_record accept_create (upstream [fast_forward]) "A" "www"
    "192.0.2.9" fresh
  = (Raise AttributeError, fresh).
Proof.
  destruct (commit_without_a_clone_raises accept_create
              (upstream [fast_forward]) fresh fresh "A" "www" "192.0.2.9"
              eq_refl eq_refl) as (_ & Hcreate).
  exact Hcreate.
Defined.

Lemma commit_leaves_a_clean_repository_witness :
  ∃ r1, repo (_commit (upstream [rejected]) edited).2 = Some r1
        ∧ nothing_to_commit r1.
Proof.
  destruct (commit_leaves_a_clean_repository (upstream [rejected]) edited
              edited_repo eq_refl) as ((r1 & Hr1 & Hclean & _) & _).
  exists r1. split; [exact Hr1 | exact Hclean].
Defined.

Lemma first_commit_is_always_made_witness :
  let empty := set_repo (Some (cloned "/tmp/dns-lexicon-git-k3" [] git_files)) fresh in
  ∃ c, history (_commit (upstream [fast_forward]) empty).2 = [c]
       ∧ tree c = ∅.
Proof.
  intros empty.
  destruct (first_commit_is_always_made (upstream [fast_forward]) empty
              (cloned "/tmp/dns-lexicon-git-k3" [] git_files) eq_refl eq_refl)
    as (c & Hh & Htree & _).
  exists c. split; [exact Hh|]. rewrite Htree. vm_compute. reflexivity.
Defined.

End CommitMoreExamples.

(** * More on the DigitalOcean provider: requests *)

Section RequestFacts.
Import PyStr DigitalOcean DigitalOceanHttp Api Crud.

Variable _relative_name : Provider → string → string.

Lemma startswith_app (a b : string) : startswith (a +:+ b) a = true.
Proof.
  induction a as [|c a IH]; [destruct b; reflexivity|].
  rewrite str_app_cons. simpl. rewrite Ascii.eqb_refl. exact IH.
Qed.

Lemma request_effect (server : HttpRequest → HttpResponse)
    (action url : string) (data query_params : option (gmap string string))
    (c : Client) :
  let request :=
    mkHttpRequest action (full_url c url) (default ∅ query_params)
      (default ∅ data) (headers c) in
  _request server action url data query_params c
  = (if status_ok (server request)
     then if String.eqb action "DELETE" then Ret EmptyText
          else match json (server request) with
               | Some text => Ret (Json text)
               | None => Raise JSONDecodeError
               end
     else Raise HTTPError,
     on_wire request c).
Proof.
  unfold _request, bind, gets, modify, ret, raise, full_url, headers.
  cbv beta iota zeta.
  destruct (status_ok _); [|reflexivity].
  destruct (String.eqb action "DELETE"); [reflexivity|].
  destruct (json _); reflexivity.
Qed.

(** X14: every request goes to the API endpoint: [_request] puts one
    request on the wire, whose URL starts with the endpoint, a URL that
    already does (the link to a next page) being used as it is; the
    request carries the token as bearer; the provider is as before. *)
Theorem request_goes_to_the_endpoint (server : HttpRequest → HttpResponse)
    (action url : string) (data query_params : option (gmap string string))
    (c : Client) :
  let after := (_request server action url data query_params c).2 in
  ∃ request,
    wire after = wire c ++ [request]
    ∧ provider after = provider c
    ∧ http_action request = action
    ∧ startswith (http_url request) (api_endpoint (provider c)) = true
    ∧ http_url request
      = (if startswith url (api_endpoint (provider c)) then url
         else api_endpoint (provider c) +:+ url)
    ∧ http_headers request !! "Authorization"
      = Some ("Bearer " +:+ default "None" (auth_token c)).
Proof.
  cbv zeta. rewrite request_effect. simpl. eexists. split; [reflexivity|].
  simpl. split; [reflexivity|]. split; [reflexivity|]. unfold full_url.
  destruct (startswith url (api_endpoint (provider c))) eqn:Hs; simpl.
  - split; [exact Hs|]. split; reflexivity.
  - split; [apply startswith_app|]. split; reflexivity.
Qed.

(** X15: [authenticate] sends one [GET] for the domain.  It returns and
    takes the domain as [domain_id] when the API answers with a success
    status and a JSON body; on a failure status it raises the HTTP error,
    on a success status with a body that is not JSON it raises the
    decoding error of [r.json()], and in both cases [domain_id] is as
    before. *)
Theorem authenticate_takes_the_domain (server : HttpRequest → HttpResponse)
    (c : Client) :
  let request :=
    mkHttpRequest "GET" (full_url c ("/domains/" +:+ domain (provider c)))
      ∅ ∅ (headers c) in
  let res := authenticate server c in
  wire res.2 = wire c ++ [request]
  ∧ res.1 = (if status_ok (server request)
             then match json (server request) with
                  | Some _ => Ret tt
                  | None => Raise JSONDecodeError
                  end
             else Raise HTTPError)
  ∧ domain_id (provider res.2)
    = match res.1 with
      | Ret _ => Some (domain (provider c))
      | Raise _ => domain_id (provider c)
      end.
Proof.
  cbv zeta. unfold authenticate, _get, bind, gets. cbv beta iota zeta.
  rewrite request_effect. simpl.
  destruct (status_ok _); simpl; [|auto].
  destruct (json _); simpl; auto.
Qed.

(** X16: [update_record] sends one [PUT] for the record whose body has
    the fields that were given and not empty, and no other: the type, the
    relative name, and the content as it is, also for a CNAME.  It
    returns [True] when the API answers with a success status and a JSON
    body; on a failure status it raises the HTTP error, and on a success
    status with a body that is not JSON the decoding error of
    [r.json()]. *)
Theorem update_record_sends_what_is_given
    (server : HttpRequest → HttpResponse) (identifier : Identifier)
    (type name content : option string) (c : Client) :
  let res := update_record _relative_name server identifier type name content c in
  ∃ request,
    wire res.2 = wire c ++ [request]
    ∧ http_action request = "PUT"
    ∧ http_url request = full_url c (record_url (provider c) identifier)
    ∧ http_data request !! "type" = (if truthy type then type else None)
    ∧ http_data request !! "name"
      = (if truthy name then _relative_name (provider c) <$> name else None)
    ∧ http_data request !! "data" = (if truthy content then content else None)
    ∧ (∀ key, key ≠ "type" → key ≠ "name" → key ≠ "data" →
         http_data request !! key = None)
    ∧ res.1 = (if status_ok (server request)
               then match json (server request) with
                    | Some _ => Ret true
                    | None => Raise JSONDecodeError
                    end
               else Raise HTTPError).
Proof.
  cbv zeta. unfold update_record, _put, bind, gets, ret. cbv beta iota zeta.
  rewrite request_effect. cbv zeta.
  set (req := mkHttpRequest "PUT" _ _ _ _). exists req.
  assert (wire (on_wire req c) = wire c ++ [req]) as Hwire by reflexivity.
  split; [destruct (status_ok (server req)); [destruct (json (server req))|];
          exact Hwire|].
  split; [reflexivity|]. split; [reflexivity|].
  subst req. cbn [http_data default].
  split; [|split; [|split; [|split]]].
  - destruct type as [[|? ?]|], name as [[|? ?]|], content as [[|? ?]|];
      simpl; simplify_map_eq; reflexivity.
  - destruct type as [[|? ?]|], name as [[|? ?]|], content as [[|? ?]|];
      simpl; simplify_map_eq; reflexivity.
  - destruct type as [[|? ?]|], name as [[|? ?]|], content as [[|? ?]|];
      simpl; simplify_map_eq; reflexivity.
  - intros key H1 H2 H3.
    destruct type as [[|? ?]|], name as [[|? ?]|], content as [[|? ?]|];
      simpl; simplify_map_eq; reflexivity.
  - destruct (status_ok _); [destruct (json _)|]; reflexivity.
Qed.

Lemma delete_request_on_wire (r : HttpRequest) (c : Client) (i : Identifier) :
  delete_request (on_wire r c) i = delete_request c i.
Proof. reflexivity. Qed.

(** The loop of [delete_record]: it deletes until a request fails. *)
Lemma delete_each_all (server : HttpRequest → HttpResponse)
    (ids : list Identifier) (c : Client) :
  Forall (deletes server c) ids →
  delete_each server ids c
  = (Ret tt,
     mkClient (provider c) (auth_token c)
       (wire c ++ map (delete_request c) ids)).
Proof.
  revert c. induction ids as [|i ids IH]; intros c Hall.
  - simpl. unfold ret. rewrite app_nil_r. destruct c; reflexivity.
  - inversion Hall as [|? ? Hi Hrest]; subst.
    cbn [delete_each]. unfold bind, gets, _delete. cbv beta iota zeta.
    rewrite request_effect. cbv zeta.
    change (mkHttpRequest "DELETE" _ _ _ _) with (delete_request c i).
    unfold deletes in Hi. rewrite Hi. simpl.
    rewrite (IH (on_wire (delete_request c i) c)) by exact Hrest.
    simpl. rewrite <- app_assoc. reflexivity.
Qed.

Lemma delete_each_until (server : HttpRequest → HttpResponse)
    (done rest : list Identifier) (bad : Identifier) (c : Client) :
  Forall (deletes server c) done → ¬ deletes server c bad →
  delete_each server (done ++ bad :: rest) c
  = (Raise HTTPError,
     mkClient (provider c) (auth_token c)
       (wire c ++ map (delete_request c) (done ++ [bad]))).
Proof.
  revert c. induction done as [|i done IH]; intros c Hall Hbad.
  - cbn [app delete_each]. unfold bind, gets, _delete. cbv beta iota zeta.
    rewrite request_effect. cbv zeta.
    change (mkHttpRequest "DELETE" _ _ _ _) with (delete_request c bad).
    unfold deletes in Hbad. apply not_true_is_false in Hbad. rewrite Hbad.
    reflexivity.
  - inversion Hall as [|? ? Hi Hrest]; subst.
    cbn [app delete_each]. unfold bind, gets, _delete. cbv beta iota zeta.
    rewrite request_effect. cbv zeta.
    change (mkHttpRequest "DELETE" _ _ _ _) with (delete_request c i).
    unfold deletes in Hi. rewrite Hi. simpl.
    rewrite (IH (on_wire (delete_request c i) c)) by assumption.
    simpl. rewrite <- app_assoc. reflexivity.
Qed.

End RequestFacts.

(** * More on the DigitalOcean provider: listing and deleting *)

Section ListingFacts.
Import PyStr DigitalOcean DigitalOceanHttp Api Crud.

Variable lower : string → string.
Variable _full_name : Provider → string → string.

(** X17: with an identifier, [delete_record] sends one [DELETE] for that
    record and nothing else: it lists no records, and the type, name and
    content it was given play no part. *)
Theorem delete_record_by_identifier (env : Env)
    (server : HttpRequest → HttpResponse) (identifier : Identifier)
    (type name content : option string) (c : Client) :
  id_truthy identifier = true →
  delete_record lower _full_name env server identifier type name content c
  = (if status_ok (server (delete_request c identifier)) then Ret true
     else Raise HTTPError,
     on_wire (delete_request c identifier) c).
Proof.
  intros Hid. unfold delete_record. rewrite Hid. simpl.
  unfold bind at 1. unfold ret at 1. cbv beta iota.
  unfold bind.
  destruct (status_ok (server (delete_request c identifier))) eqn:Hok.
  - rewrite (delete_each_all server [identifier] c)
      by (constructor; [exact Hok | constructor]).
    reflexivity.
  - assert (¬ deletes server c identifier) as Hbad
      by (unfold deletes; congruence).
    pose proof (delete_each_until server [] [] identifier c
                  ltac:(constructor) Hbad) as Hloop.
    cbn [app] in Hloop. rewrite Hloop. reflexivity.
Qed.

(** X18: without filters [list_records] returns the records of all pages
    in the order they are served, and requests the collection once and
    then each link to a next page, until a page has none.  When a page is
    not served, it raises what that page makes the request raise (the
    HTTP error of a failure status, the decoding error of a body that is
    not JSON), whatever was served before. *)
Theorem list_records_follows_the_pages (env : Env) (self : Provider) :
  let res := list_records lower _full_name env None None None self in
  match page_error (get_reply env) with
  | None =>
      res.1 = Ret (map (processed_record self) (all_records (get_reply env)))
      ∧ requests res.2
        = requests self ++ map GET (records_url self :: links (get_reply env))
  | Some e => res.1 = Raise e
  end.
Proof.
  cbv zeta. destruct (page_error (get_reply env)) as [e|] eqn:Hpages.
  - apply list_records_fails, Hpages.
  - apply responsive_page_error in Hpages.
    rewrite (list_records_filtered lower _full_name env None None None self Hpages).
    simpl. split; [|reflexivity]. f_equal. apply filter_all.
    intros record. repeat split; discriminate.
Qed.


(** X20: without an identifier, [delete_record] sends one [DELETE] for
    each listed record that passes the filters, in the order listed, and
    returns [True] when the API deletes each of them; with no such record
    it sends none and returns [True]. *)
Theorem delete_record_deletes_every_match (env : Env)
    (server : HttpRequest → HttpResponse) (identifier : Identifier)
    (type name content : option string) (c : Client) :
  id_truthy identifier = false →
  responsive (get_reply env) = true →
  let session := listed (get_reply env) (provider c) in
  let matched :=
    filter (passes lower _full_name session type name content)
      (served (get_reply env) (provider c)) in
  Forall (deletes server c) (ids_of matched) →
  delete_record lower _full_name env server identifier type name content c
  = (Ret true,
     mkClient session (auth_token c)
       (wire c ++ map (delete_request c) (ids_of matched))).
Proof.
  intros Hid Hok session matched Hall.
  unfold delete_record. rewrite Hid. simpl.
  unfold bind, on_provider, ret.
  rewrite (list_records_filtered lower _full_name env type name content
             (provider c) Hok).
  fold session matched. cbv beta iota zeta.
  change (map (λ record : Record_, IdInt (rec_id record)) matched)
    with (ids_of matched).
  rewrite (delete_each_all server (ids_of matched) (set_provider session c))
    by exact Hall.
  reflexivity.
Qed.

(** X21: [delete_record] stops at the first failure: when a [DELETE] is
    answered with a failure it raises, the records before that one
    having been deleted and those after it not requested; and when the
    listing fails it raises what the listing raised, without any
    [DELETE]. *)
Theorem delete_record_stops_at_a_failure (env : Env)
    (server : HttpRequest → HttpResponse) (identifier : Identifier)
    (type name content : option string) (c : Client) :
  id_truthy identifier = false →
  let res :=
    delete_record lower _full_name env server identifier type name content c in
  (∀ e, page_error (get_reply env) = Some e →
     res.1 = Raise e ∧ wire res.2 = wire c)
  ∧ (∀ done bad rest,
       responsive (get_reply env) = true →
       ids_of (filter (passes lower _full_name (listed (get_reply env) (provider c))
                         type name content)
                 (served (get_reply env) (provider c)))
       = done ++ bad :: rest →
       Forall (deletes server c) done → ¬ deletes server c bad →
       res.1 = Raise HTTPError
       ∧ wire res.2 = wire c ++ map (delete_request c) (done ++ [bad])).
Proof.
  intros Hid res. subst res. unfold delete_record. rewrite Hid. simpl.
  unfold bind, on_provider, ret. split.
  - intros e Hbad.
    pose proof (list_records_fails lower _full_name env type name content
                  (provider c) e Hbad) as Hfail.
    destruct (list_records _ _ _ _ _ _ _) as [[l|e'] s]; simpl in *;
      [discriminate|]. injection Hfail as ->. split; reflexivity.
  - intros done bad rest Hok Hids Hdone Hbad.
    rewrite (list_records_filtered lower _full_name env type name content
               (provider c) Hok).
    cbv beta iota zeta.
    change (map (λ record : Record_, IdInt (rec_id record)) ?l)
      with (ids_of l).
    rewrite Hids.
    rewrite (delete_each_until server done rest bad
               (set_provider (listed (get_reply env) (provider c)) c))
      by assumption.
    split; reflexivity.
Qed.

End ListingFacts.

Section DuplicateFacts.
Import PyStr DigitalOcean DigitalOceanHttp Api Crud.

Variable lower : string → string.
Variable _full_name : Provider → string → string.
Variable _relative_name : Provider → string → string.

(** X22: [create_record] takes a record as already there exactly when a
    listed record has the type, has the name as [_full_name] has it, and
    has a content that [str.lower] takes to the same text as the content
    given (an empty type, name or content not being compared): then, and
    only then, it sends no creation request. *)
Theorem create_record_skips_exactly_the_duplicates (env : Env)
    (type name content : string) (self : Provider) :
  responsive (get_reply env) = true →
  let res :=
    create_record lower _full_name _relative_name env type name content self in
  List.filter is_post (requests res.2) = List.filter is_post (requests self)
  ↔ ∃ record,
      record ∈ served (get_reply env) self
      ∧ (type ≠ "" → rec_type record = type)
      ∧ (name ≠ "" →
           rec_name record = _full_name (listed (get_reply env) self) name)
      ∧ (content ≠ "" → lower (rec_content record) = lower content).
Proof.
  intros Hok res. subst res.
  pose proof (create_record_effect lower _full_name _relative_name env type
                name content self) as Heff.
  cbv zeta in Heff.
  rewrite (list_records_filtered lower _full_name env (Some type) (Some name)
             (Some content) self Hok) in Heff.
  cbn [fst snd] in Heff.
  destruct (filter _ (served (get_reply env) self)) as [|x l] eqn:Hfilter;
    rewrite Heff; cbn [snd].
  - split.
    + unfold listed. simpl. rewrite !List.filter_app. simpl.
      intros H. apply (f_equal (@List.length _)) in H.
      rewrite !List.length_app in H. simpl in H. lia.
    + intros (record & Hin & Hpass). exfalso.
      apply passes_given in Hpass.
      assert (record ∈ filter
                (passes lower _full_name (listed (get_reply env) self)
                   (Some type) (Some name) (Some content))
                (served (get_reply env) self)) as Hmem
        by (apply list_elem_of_filter; split; assumption).
      rewrite Hfilter in Hmem. apply elem_of_nil in Hmem. exact Hmem.
  - split.
    + intros _. exists x.
      assert (x ∈ x :: l) as Hx by apply list_elem_of_here.
      rewrite <- Hfilter in Hx. apply list_elem_of_filter in Hx.
      rewrite passes_given in Hx. tauto.
    + intros _. unfold listed. cbn [requests]. rewrite List.filter_app.
      rewrite posts_of_gets. apply app_nil_r.
Qed.

End DuplicateFacts.

Section RequestExamples.
Import PyStr DigitalOcean DigitalOceanHttp Api Crud.

Lemma update_record_sends_what_is_given_witness :
  ∃ request,
    wire (update_record as_given obliging (IdInt 2) (Some "CNAME") (Some "")
            (Some "example.net") client).2 = [request]
    ∧ http_data request !! "data" = Some "example.net"
    ∧ http_data request !! "name" = None
    ∧ http_data request !! "ttl" = None.
Proof.
  destruct (update_record_sends_what_is_given as_given obliging (IdInt 2)
              (Some "CNAME") (Some "") (Some "example.net") client)
    as (request & Hwire & _ & _ & _ & Hname & Hdata & Hother & _).
  exists request. split; [exact Hwire|]. split; [exact Hdata|].
  split; [exact Hname|]. apply Hother; discriminate.
Defined.

(** A success status with a body that is not JSON: [authenticate] and
    [update_record] raise what [r.json()] raises, [delete_record] does
    not look at the body. *)
Example answers_that_are_not_json :
  (authenticate behind_a_proxy new_client).1 = Raise JSONDecodeError
  ∧ domain_id (provider (authenticate behind_a_proxy new_client).2) = None
  ∧ (update_record as_given behind_a_proxy (IdInt 2) None None
       (Some "example.net") client).1 = Raise JSONDecodeError
  ∧ (delete_record ascii_lower as_given serving behind_a_proxy (IdInt 2)
       None None None client).1 = Ret true.
Proof. repeat split. Qed.

Lemma delete_record_by_identifier_witness :
  delete_record ascii_lower as_given serving obliging (IdStr "17") (Some "A") None None
    client
  = (Ret true, on_wire (delete_request client (IdStr "17")) client).
Proof.
  exact (delete_record_by_identifier ascii_lower as_given serving obliging (IdStr "17")
           (Some "A") None None client eq_refl).
Defined.


Lemma delete_record_deletes_every_match_witness :
  (delete_record ascii_lower as_given serving obliging IdNone (Some "A") None None
     client).1 = Ret true.
Proof.
  rewrite (delete_record_deletes_every_match ascii_lower as_given serving obliging IdNone
             (Some "A") None None client eq_refl eq_refl).
  - reflexivity.
  - apply Forall_forall. intros i _. reflexivity.
Defined.

Lemma delete_record_stops_at_a_failure_witness :
  let res :=
    delete_record ascii_lower as_given serving keeps_record_2 IdNone None None None client in
  res.1 = Raise HTTPError
  ∧ wire res.2
    = [delete_request client (IdInt 1); delete_request client (IdInt 2)].
Proof.
  destruct (delete_record_stops_at_a_failure ascii_lower as_given serving keeps_record_2
              IdNone None None None client eq_refl) as (_ & Hstop).
  apply (Hstop [IdInt 1] (IdInt 2) []).
  - reflexivity.
  - vm_compute. reflexivity.
  - constructor; [vm_compute; reflexivity | constructor].
  - unfold deletes. vm_compute. discriminate.
Defined.

Lemma create_record_skips_exactly_the_duplicates_witness :
  List.filter is_post
    (requests (create_record ascii_lower as_given as_given serving "CNAME"
                 "docs.example.com" "EXAMPLE.org." authenticated).2)
  = List.filter is_post (requests authenticated).
Proof.
  apply (create_record_skips_exactly_the_duplicates ascii_lower as_given as_given serving
           "CNAME" "docs.example.com" "EXAMPLE.org." authenticated eq_refl).
  exists (mkRecord "CNAME" "docs.example.com" "" "example.org." 2).
  split; [apply list_elem_of_further, list_elem_of_here|].
  repeat split.
Defined.

End RequestExamples.
